(** * Aura-Lofi-IA: image editor, remote image service and message store

    Shallow embedding of src/components/ImageViewerModal.tsx (the image
    viewer and the image editor), src/unnamed/part_000 (the remote image
    service wrapper) and src/utils/db.ts (the message store). *)

From Stdlib Require Import ZArith List String Ascii Bool QArith Qabs Qminmax Qreals.
From Stdlib Require Import Reals Lra Lia Lqa DecimalNat Sorted Permutation.
Import ListNotations.

(* ================================================================= *)
(** ** Definitions *)
(* ================================================================= *)

(** *** Mask history (ImageEditorModal: history / historyIndex) *)
Module MaskHistory.

(** A mask snapshot is the data URL returned by [toDataURL()]. *)
Definition DataUrl := string.

Record MaskState := mkMask {
  history : list DataUrl;
  historyIndex : Z
}.

(** [useState<string[]>([])] and [useState(-1)]; also what
    [resetAllState] installs. *)
Definition initialMask : MaskState := mkMask [] (-1).

(** JavaScript [Array.prototype.slice(0, n)]. *)
Definition js_slice0 {A} (l : list A) (n : Z) : list A :=
  if (n <? 0)%Z
  then firstn (Z.to_nat (Z.max 0 (Z.of_nat (List.length l) + n))) l
  else firstn (Z.to_nat n) l.

(** JavaScript [a[i]]: [None] stands for [undefined]. *)
Definition js_index {A} (l : list A) (i : Z) : option A :=
  if (i <? 0)%Z then None else nth_error l (Z.to_nat i).

(** The effect that installs the blank snapshot once the committed image
    is loaded: when [history.length === 0] and the blank canvas data URL
    is not ['data:,'], [setHistory([blankData]); setHistoryIndex(0)]. *)
Definition installBlank (st : MaskState) (blankData : DataUrl) : MaskState :=
  if Nat.eqb (List.length (history st)) 0 && negb (String.eqb blankData "data:,")
  then mkMask [blankData] 0
  else st.

(** [saveState]: [snapshot] is [drawingCanvas.toDataURL()], [None] when
    the drawing canvas is not mounted (early return). *)
Definition saveState (st : MaskState) (snapshot : option DataUrl) : MaskState :=
  match snapshot with
  | None => st
  | Some snap =>
      let newHistory := js_slice0 (history st) (historyIndex st + 1) ++ [snap] in
      mkMask newHistory (Z.of_nat (List.length newHistory) - 1)
  end.

Definition undo (st : MaskState) : MaskState :=
  if (0 <? historyIndex st)%Z
  then mkMask (history st) (historyIndex st - 1)
  else st.

Definition redo (st : MaskState) : MaskState :=
  if (historyIndex st <? Z.of_nat (List.length (history st)) - 1)%Z
  then mkMask (history st) (historyIndex st + 1)
  else st.

(** [handleClearMask]: [clearRect] over the whole drawing canvas, then
    [saveState]; the snapshot taken is the blank canvas. *)
Definition handleClearMask (st : MaskState) (blankData : option DataUrl)
  : MaskState :=
  saveState st blankData.

(** [redrawMask] draws [history[historyIndex]]. *)
Definition displayedMask (st : MaskState) : option DataUrl :=
  js_index (history st) (historyIndex st).

(** Mask operations of the editor. *)
Inductive MaskOp :=
| Commit (snapshot : DataUrl)   (* stopDrawing -> saveState *)
| Undo
| Redo
| Clear (blankData : DataUrl).  (* handleClearMask *)

Definition stepMask (st : MaskState) (op : MaskOp) : MaskState :=
  match op with
  | Commit s => saveState st (Some s)
  | Undo => undo st
  | Redo => redo st
  | Clear b => handleClearMask st (Some b)
  end.

Definition runMask (st : MaskState) (ops : list MaskOp) : MaskState :=
  fold_left stepMask ops st.

Definition commits (ss : list DataUrl) : list MaskOp := map Commit ss.

Definition undos (k : nat) : list MaskOp := repeat Undo k.

(** The cursor invariant of the spec. *)
Definition cursorInvariant (st : MaskState) : Prop :=
  (0 <= historyIndex st < Z.of_nat (List.length (history st)))%Z.

End MaskHistory.

(** *** Crop interactor (ImageEditorModal: cropBox, mouse-move effect) *)
Module Crop.
Local Open Scope Q_scope.

Record CropBox := mkBox { x : Q; y : Q; width : Q; height : Q }.

(** [type CropHandle = 'move' | 'nw' | 'n' | 'ne' | 'e' | 'se' | 's' | 'sw' | 'w'] *)
Inductive CropHandle := Hmove | Hnw | Hn | Hne | He | Hse | Hs | Hsw | Hw.

Definition handleName (h : CropHandle) : string :=
  match h with
  | Hmove => "move" | Hnw => "nw" | Hn => "n" | Hne => "ne" | He => "e"
  | Hse => "se" | Hs => "s" | Hsw => "sw" | Hw => "w"
  end.

(** [s.includes(c)] for a one-character needle. *)
Fixpoint includes (s : string) (c : ascii) : bool :=
  match s with
  | EmptyString => false
  | String a rest => Ascii.eqb a c || includes rest c
  end.

(** JavaScript [a < b] on numbers. *)
Definition js_lt (a b : Q) : bool := negb (Qle_bool b a).

(** The box after the handle-specific update, before normalisation. *)
Definition dragRaw (h : CropHandle) (b : CropBox) (dx dy : Q) : CropBox :=
  match h with
  | Hmove => mkBox (x b + dx) (y b + dy) (width b) (height b)
  | _ =>
      let n := handleName h in
      let b1 := if includes n "n"%char
                then mkBox (x b) (y b + dy) (width b) (height b - dy) else b in
      let b2 := if includes n "s"%char
                then mkBox (x b1) (y b1) (width b1) (height b1 + dy) else b1 in
      let b3 := if includes n "w"%char
                then mkBox (x b2 + dx) (y b2) (width b2 - dx) (height b2) else b2 in
      let b4 := if includes n "e"%char
                then mkBox (x b3) (y b3) (width b3 + dx) (height b3) else b3 in
      b4
  end.

(** The two [if (newBox.width < 0)] / [if (newBox.height < 0)] fixes. *)
Definition normalizeBox (b : CropBox) : CropBox :=
  let b1 := if js_lt (width b) 0
            then mkBox (x b + width b) (y b) (Qabs (width b)) (height b)
            else b in
  if js_lt (height b1) 0
  then mkBox (x b1) (y b1 + height b1) (width b1) (Qabs (height b1))
  else b1.

(** [handleMouseMove] of the crop effect.  Returns the new [cropBox] and
    the new [dragStartPos]; [None] is the early return. *)
Definition cropMouseMove (isCropping : bool) (draggingHandle : option CropHandle)
    (cropBox : option CropBox) (dragStartPos pos : Q * Q)
    : option (CropBox * (Q * Q)) :=
  match isCropping, draggingHandle, cropBox with
  | true, Some h, Some b =>
      let dx := fst pos - fst dragStartPos in
      let dy := snd pos - snd dragStartPos in
      Some (normalizeBox (dragRaw h b dx dy), pos)
  | _, _, _ => None
  end.

(** The geometric region of a box, read with either sign of its extents:
    the points between [x] and [x + width] and between [y] and
    [y + height]. *)
Definition between (a b p : Q) : bool :=
  Qle_bool (Qmin a b) p && Qle_bool p (Qmax a b).

Definition inRegion (b : CropBox) (p : Q * Q) : bool :=
  between (x b) (x b + width b) (fst p) && between (y b) (y b + height b) (snd p).

End Crop.

(** *** Zoom at point (ImageViewerModal: scale, position, handleWheel) *)
Module Viewer.
Local Open Scope Q_scope.

Record ViewerState := mkViewer { scale : Q; position : Q * Q }.

Definition js_min (a b : Q) : Q := if Qle_bool a b then a else b.
Definition js_max (a b : Q) : Q := if Qle_bool b a then a else b.

(** [handleWheel]: [rect] is the container's [getBoundingClientRect()]
    position ([None] when the container ref is not set, in which case
    nothing is updated). *)
Definition handleWheel (st : ViewerState) (deltaY clientX clientY : Q)
    (rect : option (Q * Q)) : ViewerState :=
  let delta := if negb (Qle_bool deltaY 0) then -1 else 1 in
  let zoomIntensity := 2 # 10 in
  let newScale := js_min (js_max (scale st + delta * zoomIntensity * scale st)
                                 (1 # 10)) 8 in
  match rect with
  | None => st
  | Some (rectLeft, rectTop) =>
      let mouseX := clientX - rectLeft in
      let mouseY := clientY - rectTop in
      let pointX := (mouseX - fst (position st)) / scale st in
      let pointY := (mouseY - snd (position st)) / scale st in
      let newX := mouseX - pointX * newScale in
      let newY := mouseY - pointY * newScale in
      mkViewer newScale (newX, newY)
  end.

(** Rendering of [<img style="transform: translate(x, y) scale(s)">]
    inside the container ([flex items-center justify-center]).  The
    [img] keeps its natural size [(iw, ih)] and is centred in the
    container of size [(cw, ch)], so its layout box starts at
    [((cw - iw) / 2, (ch - ih) / 2)].  CSS applies a transform about the
    [transform-origin], whose initial value is [50% 50%], the centre
    [(iw / 2, ih / 2)] of the element: the image-local point [q] is shown
    at [layout + origin + translate + s * (q - origin)] (container
    coordinates). *)
Definition screenOf (cw ch iw ih : Q) (st : ViewerState) (q : Q * Q) : Q * Q :=
  let lx := (cw - iw) / 2 in
  let ly := (ch - ih) / 2 in
  let ox := iw / 2 in
  let oy := ih / 2 in
  (lx + ox + fst (position st) + scale st * (fst q - ox),
   ly + oy + snd (position st) + scale st * (snd q - oy)).

(** The image-local point displayed at container point [m]. *)
Definition contentUnder (cw ch iw ih : Q) (st : ViewerState) (m : Q * Q) : Q * Q :=
  let lx := (cw - iw) / 2 in
  let ly := (ch - ih) / 2 in
  let ox := iw / 2 in
  let oy := ih / 2 in
  (ox + (fst m - lx - ox - fst (position st)) / scale st,
   oy + (snd m - ly - oy - snd (position st)) / scale st).

Definition Qpair_eqb (p q : Q * Q) : bool :=
  Qeq_bool (fst p) (fst q) && Qeq_bool (snd p) (snd q).

End Viewer.

(** *** Remote image service (src/unnamed/part_000) *)
Module Gemini.
Local Open Scope string_scope.

Record ImageData := mkImageData { mimeType : string; data : string }.

(** Response of [ai.models.generateContent]: the fields the service
    wrapper reads. [text] is the SDK's [response.text] getter. *)
Record Part := mkPart { inlineData : option ImageData; partText : option string }.
Record Content := mkContent { parts : option (list Part) }.
Record Candidate := mkCandidate {
  content : option Content;
  finishReason : option string
}.
Record Response := mkResponse {
  candidates : option (list Candidate);
  text : option string
}.

(** JavaScript values that can be thrown here. [ApiErrorObject m] is an
    object with an [error] property ([m] is [error.message] when that
    property exists); [JsError m] is an [Error] instance. *)
Inductive Thrown :=
| JsError (message : string)
| ApiErrorObject (apiMessage : option string)
| OtherThrown.

(** A settled promise. *)
Inductive Result (A : Type) := Ok (a : A) | Throw (e : Thrown).
Arguments Ok {A} a.
Arguments Throw {A} e.

(** The request sent to [generateContent]. *)
Inductive Role := USER | MODEL | ERROR.
Record Message := mkMessage { msgId : string; role : Role; msgText : option string }.
Record ReqContent := mkReqContent { reqRole : string; reqParts : list Part }.
Inductive Request :=
| GenerateRequest (contents : list ReqContent)
| EditRequest (reqPartsList : list Part).

(** Outcome of the network call: a response, or a rejection. *)
Inductive ApiOutcome := Responded (r : Response) | Rejected (e : Thrown).

Definition Service := Request -> ApiOutcome.

(** JavaScript truthiness of a possibly undefined string. *)
Definition truthy (s : option string) : bool :=
  match s with Some (String _ _) => true | _ => false end.

(** [String.prototype.trim], on single-byte code units: tab, LF, VT, FF,
    CR, space and no-break space. *)
Definition is_ws (c : ascii) : bool :=
  match nat_of_ascii c with
  | 9%nat | 10%nat | 11%nat | 12%nat | 13%nat | 32%nat | 160%nat => true
  | _ => false
  end.
Fixpoint dropWs (l : list ascii) : list ascii :=
  match l with
  | c :: rest => if is_ws c then dropWs rest else l
  | [] => []
  end.
Definition trim (s : string) : string :=
  string_of_list_ascii (rev (dropWs (rev (dropWs (list_ascii_of_string s))))).

Definition dq : string := String (ascii_of_nat 34) EmptyString.

(** [response.candidates?.[0]?.content?.parts || []] *)
Definition firstParts (r : Response) : list Part :=
  match candidates r with
  | Some (c :: _) =>
      match content c with
      | Some ct => match parts ct with Some ps => ps | None => [] end
      | None => []
      end
  | _ => []
  end.

(** [response.candidates?.[0]?.finishReason] *)
Definition firstFinishReason (r : Response) : option string :=
  match candidates r with
  | Some (c :: _) => finishReason c
  | _ => None
  end.

(** The [for (const part of ...) if (part.inlineData) return ...] loop. *)
Fixpoint firstImage (ps : list Part) : option ImageData :=
  match ps with
  | [] => None
  | p :: rest =>
      match inlineData p with
      | Some d => Some (mkImageData (mimeType d) (data d))
      | None => firstImage rest
      end
  end.

(** The error message built when no image part is found, from the
    default message of the operation. *)
Definition noImageMessage (defaultMessage : string) (r : Response) : string :=
  let finishR := firstFinishReason r in
  let responseText := text r in
  let m1 := match finishR with
            | Some fr =>
                if truthy finishR && negb (String.eqb fr "STOP")
                then "Image generation failed with reason: " ++ fr ++ "."
                else defaultMessage
            | None => defaultMessage
            end in
  match responseText with
  | Some t =>
      if truthy (Some (trim t))
      then m1 ++ " The model responded with: " ++ dq ++ trim t ++ dq
      else m1
  | None => m1
  end.

(** The [catch] blocks of [generateImage] and [editImage]. *)
Definition rethrow (fallback : string) (e : Thrown) : Thrown :=
  match e with
  | ApiErrorObject (Some m) => JsError m
  | JsError m => JsError m
  | _ => JsError fallback
  end.

Inductive GenerationStyle :=
| Default | Photorealistic | Anime | Illustration | Aquarela | Cyberpunk
| Fantasia | PixelArt | Minimalista | Modelo3D | Isometrico | ArteAbstrata
| ArteVintage | ArteNoir.

Definition stylePrefix (s : GenerationStyle) : string :=
  match s with
  | Default => "undefined"
  | Photorealistic => "A photorealistic image of"
  | Anime => "An anime style image of"
  | Illustration => "An illustration of"
  | Aquarela => "A watercolor painting of"
  | Cyberpunk => "A cyberpunk style image of"
  | Fantasia => "A fantasy style image of"
  | PixelArt => "Pixel art of"
  | Minimalista => "A minimalist line art drawing of"
  | Modelo3D => "A 3D model render of"
  | Isometrico => "An isometric style image of"
  | ArteAbstrata => "An abstract painting representing"
  | ArteVintage => "A vintage photograph of"
  | ArteNoir => "A film noir style image of"
  end.

Definition nl : string := String (ascii_of_nat 10) EmptyString.

Definition mapRoleForGemini (r : Role) : string :=
  match r with USER => "user" | MODEL => "model" | ERROR => "user" end.

Definition buildGenerateRequest (prompt aspectRatio : string)
    (style : GenerationStyle) (negativePrompt : string) (hist : list Message)
    : Request :=
  let p0 := match style with
            | Default => prompt
            | _ => stylePrefix style ++ " " ++ prompt
            end in
  let p1 := p0 ++ nl ++ nl ++ "- Desired aspect ratio: " ++ aspectRatio in
  let p2 := if truthy (Some (trim negativePrompt))
            then p1 ++ nl ++ "- Negative prompt (what to avoid): " ++ trim negativePrompt
            else p1 in
  let keep m := match role m with ERROR => false | _ => true end
                && truthy (msgText m) && negb (String.eqb (msgId m) "initial") in
  let toContent m := mkReqContent (mapRoleForGemini (role m))
                       [mkPart None (msgText m)] in
  GenerateRequest (map toContent (filter keep hist)
                   ++ [mkReqContent "user" [mkPart None (Some p2)]]).

Definition GENERATE_DEFAULT_MESSAGE : string :=
  "The AI did not return an image. This might be due to a safety filter or an issue with the prompt. Please try rephrasing.".

Definition generateImage (svc : Service) (prompt aspectRatio : string)
    (style : GenerationStyle) (negativePrompt : string) (hist : list Message)
    : Result ImageData :=
  let fallback := "Failed to generate image due to an unexpected error. Please try again." in
  match svc (buildGenerateRequest prompt aspectRatio style negativePrompt hist) with
  | Rejected e => Throw (rethrow fallback e)
  | Responded r =>
      match firstImage (firstParts r) with
      | Some d => Ok d
      | None => Throw (rethrow fallback
                         (JsError (noImageMessage GENERATE_DEFAULT_MESSAGE r)))
      end
  end.

Definition buildEditRequest (prompt : string) (image : ImageData)
    (mask : option ImageData) : Request :=
  let ps := [mkPart (Some (mkImageData (mimeType image) (data image))) None;
             mkPart None (Some prompt)] in
  EditRequest (match mask with
               | Some m => ps ++ [mkPart (Some (mkImageData (mimeType m) (data m))) None]
               | None => ps
               end).

Definition EDIT_DEFAULT_MESSAGE : string := "No edited image data found in the response.".

Definition editImage (svc : Service) (prompt : string) (image : ImageData)
    (mask : option ImageData) : Result ImageData :=
  let fallback := "Failed to edit image. An unknown error occurred." in
  match svc (buildEditRequest prompt image mask) with
  | Rejected e => Throw (rethrow fallback e)
  | Responded r =>
      match firstImage (firstParts r) with
      | Some d => Ok d
      | None => Throw (rethrow fallback (JsError (noImageMessage EDIT_DEFAULT_MESSAGE r)))
      end
  end.

Definition ENHANCE_PROMPT : string :=
  "Enhance this image, improving quality, details, and clarity. Make it sharper and more vibrant without altering the main subject.".

Definition enhanceImage (svc : Service) (image : ImageData) : Result ImageData :=
  match editImage svc ENHANCE_PROMPT image None with
  | Ok d => Ok d
  | Throw (JsError m) => Throw (JsError ("Enhancement failed: " ++ m))
  | Throw _ => Throw (JsError "Failed to enhance image due to an unexpected error.")
  end.

Definition REMOVE_BACKGROUND_PROMPT : string :=
  "Remove the background of this image, making it transparent. The main subject should be preserved perfectly. The output must be a PNG with a transparent background.".

Definition removeBackground (svc : Service) (image : ImageData) : Result ImageData :=
  match editImage svc REMOVE_BACKGROUND_PROMPT image None with
  | Ok d => Ok d
  | Throw (JsError m) => Throw (JsError ("Background removal failed: " ++ m))
  | Throw _ => Throw (JsError "Failed to remove image background due to an unexpected error.")
  end.

End Gemini.

(** *** Message store (src/utils/db.ts) *)
Module Db.
Local Open Scope string_scope.

Inductive Role := USER | MODEL | ERROR.

(** [Omit<Message, 'id'>]: the fields a caller hands to [addMessageToDB]. *)
Record MessageData := mkMessageData {
  mdRole : Role;
  mdText : option string;
  mdImageUrl : option string;
  mdImageMimeType : option string
}.

(** [StoredMessage]; [id] is filled in by the store ([keyPath: 'id'],
    [autoIncrement: true]). *)
Record StoredMessage := mkStored {
  id : option nat;
  sessionId : string;
  role : Role;
  smText : option string;
  imageUrl : option string;
  imageMimeType : option string;
  timestamp : Z
}.

(** The [messages] object store: records in primary-key order, and the
    key generator's current number. *)
Record Store := mkStore {
  records : list (nat * StoredMessage);
  currentKey : nat
}.

(** A freshly created object store: no record, key generator at 1. *)
Definition emptyStore : Store := mkStore [] 1.

Definition lookup (st : Store) (k : nat) : option StoredMessage :=
  match find (fun kr => Nat.eqb (fst kr) k) (records st) with
  | Some (_, r) => Some r
  | None => None
  end.

(** [store.delete(key)] *)
Definition storeDelete (st : Store) (k : nat) : Store :=
  mkStore (filter (fun kr => negb (Nat.eqb (fst kr) k)) (records st)) (currentKey st).

(** [addMessageToDB(message, sessionId)] with [Date.now() = now]:
    [{ ...message, sessionId, timestamp }] is added under the generated
    key, which the promise resolves to. *)
Definition addMessageToDB (st : Store) (message : MessageData)
    (sid : string) (now : Z) : nat * Store :=
  let k := currentKey st in
  let stored := mkStored (Some k) sid (mdRole message) (mdText message)
                  (mdImageUrl message) (mdImageMimeType message) now in
  (k, mkStore (records st ++ [(k, stored)]) (S k)).

(** [Array.prototype.sort] with [(a, b) => a.timestamp - b.timestamp]
    (a stable sort). *)
Fixpoint insertByTimestamp (m : StoredMessage) (l : list StoredMessage)
  : list StoredMessage :=
  match l with
  | [] => [m]
  | m' :: rest =>
      if (timestamp m <? timestamp m')%Z then m :: m' :: rest
      else m' :: insertByTimestamp m rest
  end.

Definition sortByTimestamp (l : list StoredMessage) : list StoredMessage :=
  fold_left (fun acc m => insertByTimestamp m acc) l [].

(** [getAllMessagesFromDB(sessionId)]: [index('sessionId').getAll(sessionId)]
    (the records whose [sessionId] equals the key, in primary-key order),
    then sorted by timestamp. *)
Definition getAllMessagesFromDB (st : Store) (sid : string) : list StoredMessage :=
  sortByTimestamp
    (map snd (filter (fun kr => String.eqb (sessionId (snd kr)) sid) (records st))).

(** [deleteMessageFromDB(id)] *)
Definition deleteMessageFromDB (st : Store) (k : nat) : Store := storeDelete st k.

(** [clearAllMessages(sessionId)]: a key cursor over
    [IDBKeyRange.only(sessionId)] on the [sessionId] index visits the
    primary keys of the session's records, and each is deleted. *)
Definition clearAllMessages (st : Store) (sid : string) : Store :=
  let keys := map fst (filter (fun kr => String.eqb (sessionId (snd kr)) sid)
                              (records st)) in
  fold_left storeDelete keys st.

(** Store operations. *)
Inductive StoreOp :=
| OpAdd (message : MessageData) (sid : string) (now : Z)
| OpDelete (k : nat)
| OpClear (sid : string)
| OpGetAll (sid : string).

Definition stepStore (st : Store) (op : StoreOp) : Store :=
  match op with
  | OpAdd m s now => snd (addMessageToDB st m s now)
  | OpDelete k => deleteMessageFromDB st k
  | OpClear s => clearAllMessages st s
  | OpGetAll _ => st
  end.

Definition runStore (st : Store) (ops : list StoreOp) : Store :=
  fold_left stepStore ops st.

End Db.

(** *** Canvas 2D model (the platform API the editor draws with)

    A raster is a colour field over the plane, clipped to its pixel grid;
    pixel [(i, j)] is the colour around the point [(i + 1/2, j + 1/2)].
    Sampling is ideal (no resampling error).  Colour channels are
    straight (not premultiplied) values in [0, 1]. *)
Module Canvas.
Local Open Scope R_scope.

Record Color := mkColor { red : R; green : R; blue : R; alpha : R }.

Definition transparentBlack : Color := mkColor 0 0 0 0.

(** An image source: [naturalWidth], [naturalHeight] and its colours. *)
Record Image := mkImage {
  naturalWidth : Z;
  naturalHeight : Z;
  pixel : R -> R -> Color
}.

Definition inBounds (w h : Z) (px py : R) : Prop :=
  0 <= px < IZR w /\ 0 <= py < IZR h.

Definition inBounds_dec (w h : Z) (px py : R) : {inBounds w h px py} + {~ inBounds w h px py}.
Proof.
  unfold inBounds.
  destruct (Rle_dec 0 px), (Rlt_dec px (IZR w)), (Rle_dec 0 py), (Rlt_dec py (IZR h));
    solve [left; tauto | right; tauto].
Defined.

(** A [DOMMatrix] [(a, b, c, d, e, f)]: [(x, y)] goes to
    [(a x + c y + e, b x + d y + f)]. *)
Record Affine := mkAffine { ma : R; mb : R; mc : R; md : R; me : R; mf : R }.

Definition identityM : Affine := mkAffine 1 0 0 1 0 0.

(** [m * n]: apply [n] first. *)
Definition mulM (m n : Affine) : Affine :=
  mkAffine (ma m * ma n + mc m * mb n) (mb m * ma n + md m * mb n)
           (ma m * mc n + mc m * md n) (mb m * mc n + md m * md n)
           (ma m * me n + mc m * mf n + me m) (mb m * me n + md m * mf n + mf m).

Definition applyM (m : Affine) (p : R * R) : R * R :=
  (ma m * fst p + mc m * snd p + me m, mb m * fst p + md m * snd p + mf m).

Definition invertM (m : Affine) : Affine :=
  let det := ma m * md m - mb m * mc m in
  mkAffine (md m / det) (- mb m / det) (- mc m / det) (ma m / det)
           ((mc m * mf m - md m * me m) / det) ((mb m * me m - ma m * mf m) / det).

(** CSS filter primitives used by the editor. *)
Inductive FilterOp :=
| Brightness (a : R) | Contrast (a : R) | Saturate (a : R)
| Sepia (a : R) | Grayscale (a : R) | HueRotate (deg : R).

(** The value of [ctx.filter]: ['none'] or a [<filter-value-list>]. *)
Inductive FilterValue := FNone | FList (l : list FilterOp).

Definition clamp01 (v : R) : R := Rmax 0 (Rmin v 1).

Definition colorMatrix (r0 r1 r2 g0 g1 g2 b0 b1 b2 : R) (c : Color) : Color :=
  mkColor (clamp01 (r0 * red c + r1 * green c + r2 * blue c))
          (clamp01 (g0 * red c + g1 * green c + g2 * blue c))
          (clamp01 (b0 * red c + b1 * green c + b2 * blue c))
          (alpha c).

Definition linearTransfer (slope intercept : R) (c : Color) : Color :=
  mkColor (clamp01 (slope * red c + intercept)) (clamp01 (slope * green c + intercept))
          (clamp01 (slope * blue c + intercept)) (alpha c).

(** The Filter Effects equivalents of the filter functions. *)
Definition applyFilterOp (f : FilterOp) (c : Color) : Color :=
  match f with
  | Brightness a => linearTransfer a 0 c
  | Contrast a => linearTransfer a (- (0.5 * a) + 0.5) c
  | Saturate s =>
      colorMatrix (0.213 + 0.787 * s) (0.715 - 0.715 * s) (0.072 - 0.072 * s)
                  (0.213 - 0.213 * s) (0.715 + 0.285 * s) (0.072 - 0.072 * s)
                  (0.213 - 0.213 * s) (0.715 - 0.715 * s) (0.072 + 0.928 * s) c
  | Sepia a0 =>
      let a := 1 - Rmin a0 1 in
      colorMatrix (0.393 + 0.607 * a) (0.769 - 0.769 * a) (0.189 - 0.189 * a)
                  (0.349 - 0.349 * a) (0.686 + 0.314 * a) (0.168 - 0.168 * a)
                  (0.272 - 0.272 * a) (0.534 - 0.534 * a) (0.131 + 0.869 * a) c
  | Grayscale a0 =>
      let a := 1 - Rmin a0 1 in
      colorMatrix (0.2126 + 0.7874 * a) (0.7152 - 0.7152 * a) (0.0722 - 0.0722 * a)
                  (0.2126 - 0.2126 * a) (0.7152 + 0.2848 * a) (0.0722 - 0.0722 * a)
                  (0.2126 - 0.2126 * a) (0.7152 - 0.7152 * a) (0.0722 + 0.9278 * a) c
  | HueRotate deg =>
      let t := deg * PI / 180 in
      let co := cos t in
      let si := sin t in
      colorMatrix (0.213 + co * 0.787 - si * 0.213) (0.715 - co * 0.715 - si * 0.715)
                  (0.072 - co * 0.072 + si * 0.928)
                  (0.213 - co * 0.213 + si * 0.143) (0.715 + co * 0.285 + si * 0.140)
                  (0.072 - co * 0.072 - si * 0.283)
                  (0.213 - co * 0.213 - si * 0.787) (0.715 - co * 0.715 + si * 0.715)
                  (0.072 + co * 0.928 + si * 0.072) c
  end.

Definition applyFilter (fv : FilterValue) (c : Color) : Color :=
  match fv with
  | FNone => c
  | FList l => fold_left (fun acc f => applyFilterOp f acc) l c
  end.

(** A 2D context with its canvas: bitmap size, current transform, current
    filter and the colours drawn so far. *)
Record Ctx := mkCtx {
  cw : Z;
  ch : Z;
  ctm : Affine;
  cfilter : FilterValue;
  cpx : R -> R -> Color
}.

(** [document.createElement('canvas').getContext('2d')]: 300 x 150,
    identity transform, filter ['none'], transparent. *)
Definition newCanvas : Ctx :=
  mkCtx 300 150 identityM FNone (fun _ _ => transparentBlack).

(** JavaScript [x] converted to a WebIDL [unsigned long] (finite [x]):
    truncation towards zero, then modulo 2^32. *)
Definition Rtrunc (v : R) : Z :=
  if Rle_dec 0 v then Int_part v else (- Int_part (- v))%Z.

Definition toUnsignedLong (v : R) : Z := Z.modulo (Rtrunc v) (2 ^ 32).

(** Setting [canvas.width] / [canvas.height] resizes and clears the
    bitmap and resets the context state (transform and filter). *)
Definition setWidth (c : Ctx) (v : R) : Ctx :=
  mkCtx (toUnsignedLong v) (ch c) identityM FNone (fun _ _ => transparentBlack).
Definition setHeight (c : Ctx) (v : R) : Ctx :=
  mkCtx (cw c) (toUnsignedLong v) identityM FNone (fun _ _ => transparentBlack).

(** Assigning [ctx.filter]: a value that does not parse ([None]) is
    ignored. *)
Definition setFilter (c : Ctx) (parsed : option FilterValue) : Ctx :=
  match parsed with
  | Some fv => mkCtx (cw c) (ch c) (ctm c) fv (cpx c)
  | None => c
  end.

Definition translate (c : Ctx) (tx ty : R) : Ctx :=
  mkCtx (cw c) (ch c) (mulM (ctm c) (mkAffine 1 0 0 1 tx ty)) (cfilter c) (cpx c).
Definition rotate (c : Ctx) (t : R) : Ctx :=
  mkCtx (cw c) (ch c) (mulM (ctm c) (mkAffine (cos t) (sin t) (- sin t) (cos t) 0 0))
        (cfilter c) (cpx c).
Definition scale (c : Ctx) (sx sy : R) : Ctx :=
  mkCtx (cw c) (ch c) (mulM (ctm c) (mkAffine sx 0 0 sy 0 0)) (cfilter c) (cpx c).

Definition inSpan (a len u : R) : Prop := Rmin a (a + len) <= u < Rmax a (a + len).

Definition inSpan_dec (a len u : R) : {inSpan a len u} + {~ inSpan a len u}.
Proof.
  unfold inSpan.
  destruct (Rle_dec (Rmin a (a + len)) u), (Rlt_dec u (Rmax a (a + len)));
    solve [left; tauto | right; tauto].
Defined.

(** [ctx.drawImage(src, sx, sy, sw, sh, dx, dy, dw, dh)]: a device point
    whose preimage under the current transform lies in the destination
    rectangle takes the filtered colour of the corresponding source point.
    The canvases drawn on here are freshly cleared, so source-over
    compositing leaves the drawn colour. *)
Definition drawImage9 (c : Ctx) (src : Image) (sx sy sw sh dx dy dw dh : R) : Ctx :=
  let inv := invertM (ctm c) in
  mkCtx (cw c) (ch c) (ctm c) (cfilter c)
    (fun px py =>
       let u := applyM inv (px, py) in
       if inSpan_dec dx dw (fst u) then
         if inSpan_dec dy dh (snd u) then
           applyFilter (cfilter c)
             (pixel src (sx + (fst u - dx) * sw / dw) (sy + (snd u - dy) * sh / dh))
         else cpx c px py
       else cpx c px py).

(** [ctx.drawImage(src, dx, dy, dw, dh)]: the whole source. *)
Definition drawImage5 (c : Ctx) (src : Image) (dx dy dw dh : R) : Ctx :=
  drawImage9 c src 0 0 (IZR (naturalWidth src)) (IZR (naturalHeight src)) dx dy dw dh.

(** [ctx.drawImage(src, dx, dy)]: the whole source at its natural size. *)
Definition drawImage3 (c : Ctx) (src : Image) (dx dy : R) : Ctx :=
  drawImage5 c src dx dy (IZR (naturalWidth src)) (IZR (naturalHeight src)).

(** The canvas as an image source ([toDataURL('image/png')] and back, or
    the canvas itself): its bitmap, transparent outside. *)
Definition canvasImage (c : Ctx) : Image :=
  mkImage (cw c) (ch c)
    (fun px py => if inBounds_dec (cw c) (ch c) px py then cpx c px py
                  else transparentBlack).

(** Whether the bitmap has a pixel.  Without one, [canvas.toDataURL()]
    returns ['data:,'], whose part after the comma is empty, and
    [drawImage] with the canvas as its source throws an
    [InvalidStateError]. *)
Definition hasPixels (c : Ctx) : bool :=
  negb (Z.eqb (cw c) 0) && negb (Z.eqb (ch c) 0).

End Canvas.

(** *** Editor transform, bake and crop (ImageEditorModal) *)
Module Editor.
Import Canvas.
Local Open Scope R_scope.

Record EditorState := mkEditor {
  committedImage : option Image;
  brightness : R;
  contrast : R;
  saturation : R;
  rotation : R;
  uniformScale : R;
  flipX : R;
  flipY : R;
  activeFilter : string;
  isCropping : bool;
  cropBox : option Crop.CropBox;
  zoom : R;
  panOffset : R * R
}.

(** [resetTransformsAndAdjustments] *)
Definition resetTransformsAndAdjustments (st : EditorState) : EditorState :=
  mkEditor (committedImage st) 100 100 100 0 1 1 1 "none"%string false None
           (zoom st) (panOffset st).

Definition setCommittedImage (st : EditorState) (img : Image) : EditorState :=
  mkEditor (Some img) (brightness st) (contrast st) (saturation st) (rotation st)
           (uniformScale st) (flipX st) (flipY st) (activeFilter st) (isCropping st)
           (cropBox st) (zoom st) (panOffset st).

(** The [style] strings of [filterPresets] (src/unnamed/part_001), read as
    CSS filter values. *)
Definition parsePresetStyle (s : string) : option FilterValue :=
  if String.eqb s "none" then Some FNone
  else if String.eqb s "sepia(0.6) contrast(1.1) brightness(0.9) saturate(1.2)"
  then Some (FList [Sepia 0.6; Contrast 1.1; Brightness 0.9; Saturate 1.2])
  else if String.eqb s "contrast(1.4) saturate(1.1) brightness(0.9) hue-rotate(-10deg) sepia(0.3)"
  then Some (FList [Contrast 1.4; Saturate 1.1; Brightness 0.9; HueRotate (-10); Sepia 0.3])
  else if String.eqb s "grayscale(1) contrast(1.3) brightness(0.9)"
  then Some (FList [Grayscale 1; Contrast 1.3; Brightness 0.9])
  else if String.eqb s "contrast(1.5) brightness(1.1) saturate(1.8) hue-rotate(-20deg)"
  then Some (FList [Contrast 1.5; Brightness 1.1; Saturate 1.8; HueRotate (-20)])
  else if String.eqb s "saturate(0.7) contrast(0.9) brightness(1.1)"
  then Some (FList [Saturate 0.7; Contrast 0.9; Brightness 1.1])
  else if String.eqb s "saturate(1.5) contrast(1.2) brightness(1.05)"
  then Some (FList [Saturate 1.5; Contrast 1.2; Brightness 1.05])
  else if String.eqb s "contrast(1.1) brightness(1.05) hue-rotate(-15deg) saturate(1.1)"
  then Some (FList [Contrast 1.1; Brightness 1.05; HueRotate (-15); Saturate 1.1])
  else if String.eqb s "sepia(0.2) contrast(1.05) brightness(1.05) hue-rotate(10deg)"
  then Some (FList [Sepia 0.2; Contrast 1.05; Brightness 1.05; HueRotate 10])
  else None.

(** The parse of [`${activeFilter} brightness(b%) contrast(c%) saturate(s%)`].
    ['none'] cannot be combined with filter functions in CSS, so the
    string starting with ['none '] does not parse. *)
Definition composedFilter (af : string) (b c s : R) : option FilterValue :=
  match parsePresetStyle af with
  | Some (FList l) =>
      Some (FList (l ++ [Brightness (b / 100); Contrast (c / 100); Saturate (s / 100)]))
  | _ => None
  end.

(** The parse of [`brightness(b%) contrast(c%) saturate(s%)`]. *)
Definition adjustmentFilter (b c s : R) : option FilterValue :=
  Some (FList [Brightness (b / 100); Contrast (c / 100); Saturate (s / 100)]).

(** The geometry computed by [renderCanvas]. *)
Record Layout := mkLayout {
  rotatedWidth : R;
  rotatedHeight : R;
  displayScale : R;
  canvasWidth : R;
  canvasHeight : R;
  finalDrawWidth : R;
  finalDrawHeight : R
}.

(** [renderCanvas] up to the drawing: [None] is one of its early returns
    ([rotatedWidth === 0 || rotatedHeight === 0], or no committed image);
    [containerWidth], [containerHeight] come from
    [container.getBoundingClientRect()]. *)
Definition renderLayout (st : EditorState) (containerWidth containerHeight : R)
  : option Layout :=
  match committedImage st with
  | None => None
  | Some imageToDraw =>
      let rad := rotation st * PI / 180 in
      let absCos := Rabs (cos rad) in
      let absSin := Rabs (sin rad) in
      let imgWidth := IZR (naturalWidth imageToDraw) * uniformScale st in
      let imgHeight := IZR (naturalHeight imageToDraw) * uniformScale st in
      let rotatedW := imgWidth * absCos + imgHeight * absSin in
      let rotatedH := imgWidth * absSin + imgHeight * absCos in
      let maxWidth := containerWidth - 40 in
      let maxHeight := containerHeight - 40 in
      if Req_EM_T rotatedW 0 then None
      else if Req_EM_T rotatedH 0 then None
      else
        let ds := Rmin (maxWidth / rotatedW) (maxHeight / rotatedH) in
        Some (mkLayout rotatedW rotatedH ds (rotatedW * ds) (rotatedH * ds)
                (imgWidth * ds / zoom st) (imgHeight * ds / zoom st))
  end.

(** [getBakedImageData]: the PNG written by [toDataURL], as a raster;
    [None] when there is no committed image, or when the canvas has no
    pixel, so that the data URL is ['data:,'] and [if (!data) return null]
    returns. *)
Definition getBakedImageData (st : EditorState) : option Image :=
  match committedImage st with
  | None => None
  | Some img =>
      let rad := rotation st * PI / 180 in
      let co := cos rad in
      let si := sin rad in
      let w := IZR (naturalWidth img) * uniformScale st in
      let h := IZR (naturalHeight img) * uniformScale st in
      let newWidth := Rabs (w * co) + Rabs (h * si) in
      let newHeight := Rabs (w * si) + Rabs (h * co) in
      let c1 := setWidth newCanvas newWidth in
      let c2 := setHeight c1 newHeight in
      let c3 := setFilter c2 (composedFilter (activeFilter st) (brightness st)
                                (contrast st) (saturation st)) in
      let c4 := translate c3 (newWidth / 2) (newHeight / 2) in
      let c5 := rotate c4 rad in
      let c6 := scale c5 (flipX st) (flipY st) in
      let c7 := drawImage5 c6 img (- w / 2) (- h / 2) w h in
      if hasPixels c7 then Some (canvasImage c7) else None
  end.

(** The native rotated extent used by [handleApplyCrop]. *)
Definition nativeRotatedWidth (st : EditorState) (img : Image) : R :=
  let rad := rotation st * PI / 180 in
  IZR (naturalWidth img) * Rabs (cos rad) + IZR (naturalHeight img) * Rabs (sin rad).
Definition nativeRotatedHeight (st : EditorState) (img : Image) : R :=
  let rad := rotation st * PI / 180 in
  IZR (naturalWidth img) * Rabs (sin rad) + IZR (naturalHeight img) * Rabs (cos rad).

(** [transformedCanvas] of [handleApplyCrop]: the committed image drawn
    at its natural size, rotated, flipped and adjusted. *)
Definition cropSourceCanvas (st : EditorState) (img : Image) : Ctx :=
  let rad := rotation st * PI / 180 in
  let newWidth := nativeRotatedWidth st img in
  let newHeight := nativeRotatedHeight st img in
  let c1 := setWidth newCanvas newWidth in
  let c2 := setHeight c1 newHeight in
  let c3 := setFilter c2 (adjustmentFilter (brightness st) (contrast st) (saturation st)) in
  let c4 := translate c3 (newWidth / 2) (newHeight / 2) in
  let c5 := rotate c4 rad in
  let c6 := scale c5 (flipX st) (flipY st) in
  drawImage3 c6 img (- IZR (naturalWidth img) / 2) (- IZR (naturalHeight img) / 2).

(** [handleApplyCrop]; [displayCanvasWidth] is [baseCanvasRef.current.width].
    [None] leaves the state as it is: an early return; a [transformedCanvas]
    without a pixel, on which [finalCtx.drawImage] throws; or a
    [finalCanvas] without a pixel, whose data URL ['data:,'] never fires
    [onload].  Otherwise the new committed image is the one loaded from the
    crop's data URL, after which the transforms and adjustments are
    reset. *)
Definition handleApplyCrop (st : EditorState) (displayCanvasWidth : Z)
  : option EditorState :=
  match committedImage st, cropBox st with
  | Some img, Some box =>
      let transformedCanvas := cropSourceCanvas st img in
      let newWidth := nativeRotatedWidth st img in
      let scaleBetweenDisplayAndBaked := newWidth / (IZR displayCanvasWidth / zoom st) in
      let sx := Q2R (Crop.x box) * scaleBetweenDisplayAndBaked in
      let sy := Q2R (Crop.y box) * scaleBetweenDisplayAndBaked in
      let sWidth := Q2R (Crop.width box) * scaleBetweenDisplayAndBaked in
      let sHeight := Q2R (Crop.height box) * scaleBetweenDisplayAndBaked in
      let f1 := setWidth newCanvas sWidth in
      let f2 := setHeight f1 sHeight in
      let f3 := drawImage9 f2 (canvasImage transformedCanvas) sx sy sWidth sHeight
                           0 0 sWidth sHeight in
      if hasPixels transformedCanvas && hasPixels f3
      then Some (resetTransformsAndAdjustments (setCommittedImage st (canvasImage f3)))
      else None
  | _, _ => None
  end.

End Editor.

(** *** Viewer controls (ImageViewerModal: zoom buttons, reset, drag) *)
Module ViewerControls.
Import Viewer.
Local Open Scope Q_scope.

(** The viewer's state: [scale] and [position] ([ViewerState]), with
    [isDragging] and [startDrag]. *)
Record ViewerUi := mkViewerUi {
  view : ViewerState;
  isDragging : bool;
  startDrag : Q * Q
}.

Definition initialViewerUi : ViewerUi := mkViewerUi (mkViewer 1 (0, 0)) false (0, 0).

Definition setView (ui : ViewerUi) (v : ViewerState) : ViewerUi :=
  mkViewerUi v (isDragging ui) (startDrag ui).

(** The effect run when [isOpen] or [imageUrl] changes. *)
Definition openReset (ui : ViewerUi) (isOpen : bool) : ViewerUi :=
  if isOpen then setView ui (mkViewer 1 (0, 0)) else ui.

(** [handleZoomIn]: [setScale(s => Math.min(s * 1.25, 8))] *)
Definition handleZoomIn (ui : ViewerUi) : ViewerUi :=
  setView ui (mkViewer (js_min (scale (view ui) * (5 # 4)) 8) (position (view ui))).

(** [handleZoomOut]: [setScale(s => Math.max(s / 1.25, 0.1))] *)
Definition handleZoomOut (ui : ViewerUi) : ViewerUi :=
  setView ui (mkViewer (js_max (scale (view ui) / (5 # 4)) (1 # 10)) (position (view ui))).

(** [handleReset] *)
Definition handleReset (ui : ViewerUi) : ViewerUi := setView ui (mkViewer 1 (0, 0)).

(** [handleMouseDown]: dragging starts only when zoomed in. *)
Definition handleMouseDown (ui : ViewerUi) (clientX clientY : Q) : ViewerUi :=
  if Qle_bool (scale (view ui)) 1 then ui
  else mkViewerUi (view ui) true
         (clientX - fst (position (view ui)), clientY - snd (position (view ui))).

(** [handleMouseUp] and [handleMouseLeave] *)
Definition handleMouseUp (ui : ViewerUi) : ViewerUi :=
  mkViewerUi (view ui) false (startDrag ui).

(** [handleMouseMove] *)
Definition handleMouseMove (ui : ViewerUi) (clientX clientY : Q) : ViewerUi :=
  if isDragging ui
  then setView ui (mkViewer (scale (view ui))
                    (clientX - fst (startDrag ui), clientY - snd (startDrag ui)))
  else ui.

Inductive ViewerEvent :=
| EvOpen (isOpen : bool)
| EvZoomIn
| EvZoomOut
| EvReset
| EvWheel (deltaY clientX clientY : Q) (rect : option (Q * Q))
| EvMouseDown (clientX clientY : Q)
| EvMouseUp
| EvMouseLeave
| EvMouseMove (clientX clientY : Q).

Definition stepViewer (ui : ViewerUi) (ev : ViewerEvent) : ViewerUi :=
  match ev with
  | EvOpen o => openReset ui o
  | EvZoomIn => handleZoomIn ui
  | EvZoomOut => handleZoomOut ui
  | EvReset => handleReset ui
  | EvWheel dy cx cy r => setView ui (handleWheel (view ui) dy cx cy r)
  | EvMouseDown cx cy => handleMouseDown ui cx cy
  | EvMouseUp => handleMouseUp ui
  | EvMouseLeave => handleMouseUp ui
  | EvMouseMove cx cy => handleMouseMove ui cx cy
  end.

Definition runViewer (ui : ViewerUi) (evs : list ViewerEvent) : ViewerUi :=
  fold_left stepViewer evs ui.

End ViewerControls.

(** *** Editor controls (ImageEditorModal: transform, adjust, view and
    crop buttons, [hasUnappliedChanges], [handleDone], the expand step of
    [handleSubmit]) *)
Module EditorControls.
Import Canvas Editor.
Local Open Scope R_scope.

(** JavaScript [a % b] on finite numbers: [a] minus [b] times the
    quotient truncated towards zero. *)
Definition js_rem (a b : R) : R := a - b * IZR (Rtrunc (a / b)).

Definition Reqb (a b : R) : bool := if Req_EM_T a b then true else false.

Definition withTransform (st : EditorState) (r u fx fy : R) : EditorState :=
  mkEditor (committedImage st) (brightness st) (contrast st) (saturation st) r u fx fy
           (activeFilter st) (isCropping st) (cropBox st) (zoom st) (panOffset st).

Definition withAdjust (st : EditorState) (b c s : R) (af : string) : EditorState :=
  mkEditor (committedImage st) b c s (rotation st) (uniformScale st) (flipX st) (flipY st)
           af (isCropping st) (cropBox st) (zoom st) (panOffset st).

Definition withView (st : EditorState) (z : R) (p : R * R) : EditorState :=
  mkEditor (committedImage st) (brightness st) (contrast st) (saturation st) (rotation st)
           (uniformScale st) (flipX st) (flipY st) (activeFilter st) (isCropping st)
           (cropBox st) z p.

Definition withCrop (st : EditorState) (c : bool) (b : option Crop.CropBox) : EditorState :=
  mkEditor (committedImage st) (brightness st) (contrast st) (saturation st) (rotation st)
           (uniformScale st) (flipX st) (flipY st) (activeFilter st) c b
           (zoom st) (panOffset st).

(** The "Rotate 90" button: [setRotation(r => (r + 90) % 360)]. *)
Definition rotateRight90 (st : EditorState) : EditorState :=
  withTransform st (js_rem (rotation st + 90) 360) (uniformScale st) (flipX st) (flipY st).

(** "Flip H" and "Flip V": [s.x * -1], [s.y * -1]. *)
Definition flipH (st : EditorState) : EditorState :=
  withTransform st (rotation st) (uniformScale st) (flipX st * -1) (flipY st).
Definition flipV (st : EditorState) : EditorState :=
  withTransform st (rotation st) (uniformScale st) (flipX st) (flipY st * -1).

(** "Reset Transforms" *)
Definition resetTransforms (st : EditorState) : EditorState := withTransform st 0 1 1 1.

(** The editor's zoom buttons. *)
Definition zoomOut (st : EditorState) : EditorState :=
  withView st (Rmax (zoom st / 1.25) 0.2) (panOffset st).
Definition resetView (st : EditorState) : EditorState := withView st 1 (0, 0).
Definition zoomIn (st : EditorState) : EditorState :=
  withView st (Rmin (zoom st * 1.25) 8) (panOffset st).

(** [resetAllState], on the fields of [EditorState]. *)
Definition resetAllState (st : EditorState) : EditorState :=
  withView (resetTransformsAndAdjustments
              (mkEditor None (brightness st) (contrast st) (saturation st) (rotation st)
                 (uniformScale st) (flipX st) (flipY st) (activeFilter st) (isCropping st)
                 (cropBox st) (zoom st) (panOffset st)))
           1 (0, 0).

(** [handleStartCrop], for a base canvas of [canvasWidth] x [canvasHeight]. *)
Definition startCropBox (canvasWidth canvasHeight : Z) : Crop.CropBox :=
  let w := inject_Z canvasWidth in
  let h := inject_Z canvasHeight in
  let initialWidth := (w * (8 # 10))%Q in
  let initialHeight := (h * (8 # 10))%Q in
  Crop.mkBox ((w - initialWidth) / 2)%Q ((h - initialHeight) / 2)%Q initialWidth initialHeight.

Definition handleStartCrop (st : EditorState) (canvasWidth canvasHeight : Z) : EditorState :=
  withCrop st true (Some (startCropBox canvasWidth canvasHeight)).

Definition handleCancelCrop (st : EditorState) : EditorState := withCrop st false None.

(** The editor's user actions on the transform, adjustment, view and crop
    state ([SetRotation] is the slider, [SetUniformScale v] the scale
    slider at [v], [SetActiveFilter] a colour preset). *)
Inductive EditorOp :=
| SetRotation (r : R)
| RotateRight90
| FlipH
| FlipV
| SetUniformScale (v : R)
| ResetTransforms
| SetBrightness (v : R)
| SetContrast (v : R)
| SetSaturation (v : R)
| SetActiveFilter (s : string)
| ZoomIn
| ZoomOut
| ResetView
| StartCrop (canvasWidth canvasHeight : Z)
| CancelCrop
| ApplyCrop (displayCanvasWidth : Z)
| ResetAll.

Definition stepEditor (st : EditorState) (op : EditorOp) : EditorState :=
  match op with
  | SetRotation r => withTransform st r (uniformScale st) (flipX st) (flipY st)
  | RotateRight90 => rotateRight90 st
  | FlipH => flipH st
  | FlipV => flipV st
  | SetUniformScale v => withTransform st (rotation st) (v / 100) (flipX st) (flipY st)
  | ResetTransforms => resetTransforms st
  | SetBrightness v => withAdjust st v (contrast st) (saturation st) (activeFilter st)
  | SetContrast v => withAdjust st (brightness st) v (saturation st) (activeFilter st)
  | SetSaturation v => withAdjust st (brightness st) (contrast st) v (activeFilter st)
  | SetActiveFilter s => withAdjust st (brightness st) (contrast st) (saturation st) s
  | ZoomIn => zoomIn st
  | ZoomOut => zoomOut st
  | ResetView => resetView st
  | StartCrop w h => handleStartCrop st w h
  | CancelCrop => handleCancelCrop st
  | ApplyCrop w => match handleApplyCrop st w with Some st' => st' | None => st end
  | ResetAll => resetAllState st
  end.

Definition runEditor (st : EditorState) (ops : list EditorOp) : EditorState :=
  fold_left stepEditor ops st.

(** The editor's state when opened: every field at its [useState] value. *)
Definition initialEditor : EditorState :=
  mkEditor None 100 100 100 0 1 1 1 "none"%string false None 1 (0, 0).

(** [hasUnappliedChanges] *)
Definition hasUnappliedChanges (st : EditorState) : bool :=
  negb (Reqb (brightness st) 100) || negb (Reqb (contrast st) 100)
  || negb (Reqb (saturation st) 100) || negb (Reqb (rotation st) 0)
  || negb (Reqb (uniformScale st) 1) || negb (Reqb (flipX st) 1)
  || negb (Reqb (flipY st) 1) || negb (String.eqb (activeFilter st) "none").

(** What [handleDone] hands to the parent before [onClose()]:
    [onEditComplete], [onClientEditSave] or nothing. *)
Inductive DoneAction :=
| EditComplete (prompt : string) (original edited : Gemini.ImageData)
| ClientEditSave (baked : Image)
| NoSave.

Definition handleDone (st : EditorState) (editedImageData imageData : option Gemini.ImageData)
    (prompt : string) : DoneAction :=
  match editedImageData, imageData with
  | Some e, Some i => EditComplete (if String.eqb prompt "" then "AI edit" else prompt) i e
  | None, _ =>
      if hasUnappliedChanges st
      then match getBakedImageData st with Some b => ClientEditSave b | None => NoSave end
      else NoSave
  | Some _, None => NoSave
  end.

(** The expand branch of [handleSubmit]: the baked image (loaded back as
    [bakedImageElement], whose [width] and [height] are its natural size)
    drawn at its natural size in the middle of a canvas 1.5 times as
    large. *)
Definition expandCanvas (baked : Image) : Ctx :=
  let bw := IZR (naturalWidth baked) in
  let bh := IZR (naturalHeight baked) in
  let newWidth := bw * 1.5 in
  let newHeight := bh * 1.5 in
  let c1 := setWidth newCanvas newWidth in
  let c2 := setHeight c1 newHeight in
  let offsetX := (newWidth - bw) / 2 in
  let offsetY := (newHeight - bh) / 2 in
  drawImage3 c2 baked offsetX offsetY.

End EditorControls.

(** *** Conversation history (src/hooks/useConversationHistory.ts) over
    the message store, and src/utils/sessionId.ts *)
Module Conversation.
Import Db.
Local Open Scope string_scope.

(** A number in a template literal: its decimal digits. *)
Fixpoint uintToString (d : Decimal.uint) : string :=
  match d with
  | Decimal.Nil => ""
  | Decimal.D0 d => String "0" (uintToString d)
  | Decimal.D1 d => String "1" (uintToString d)
  | Decimal.D2 d => String "2" (uintToString d)
  | Decimal.D3 d => String "3" (uintToString d)
  | Decimal.D4 d => String "4" (uintToString d)
  | Decimal.D5 d => String "5" (uintToString d)
  | Decimal.D6 d => String "6" (uintToString d)
  | Decimal.D7 d => String "7" (uintToString d)
  | Decimal.D8 d => String "8" (uintToString d)
  | Decimal.D9 d => String "9" (uintToString d)
  end.

Definition natToString (n : nat) : string := uintToString (Nat.to_uint n).

(** [Message] as the hook holds it. *)
Record UiMessage := mkUi {
  uid : string;
  urole : Role;
  utext : option string;
  uimageUrl : option string;
  uimageMimeType : option string
}.

Definition GREETING : string :=
  "Hello! Describe an image you'd like me to create for you, or upload an image to edit.".

Definition initialMessage : UiMessage := mkUi "initial" MODEL (Some GREETING) None None.

(** [`db-${id}`] ([undefined] for a missing id). *)
Definition dbMessageId (k : option nat) : string :=
  "db-" ++ match k with Some n => natToString n | None => "undefined" end.

(** The [storedMessages.map(...)] of [loadHistory]. *)
Definition fromStored (m : StoredMessage) : UiMessage :=
  mkUi (dbMessageId (id m)) (role m) (smText m) (imageUrl m) (imageMimeType m).

(** [{ id: `error-${Date.now()}`, role: Role.ERROR, text }] *)
Definition errorMessage (now : nat) (text : string) : UiMessage :=
  mkUi ("error-" ++ natToString now) ERROR (Some text) None None.

(** The hook's [messages] with the store it reads and writes. *)
Record Hook := mkHook { store : Store; messages : list UiMessage }.

(** The hook right after mounting: the greeting only. *)
Definition mountHook (st : Store) : Hook := mkHook st [initialMessage].

(** [loadHistory] when the store answers: a non-empty result replaces
    everything after [prev[0]].  ([prev[0]] of an empty list would be
    [undefined]; the hook's list always starts with the greeting.) *)
Definition loadHistoryOk (sid : string) (h : Hook) : Hook :=
  let stored := getAllMessagesFromDB (store h) sid in
  if Nat.ltb 0 (List.length stored)
  then mkHook (store h)
         (match messages h with
          | p :: _ => p :: map fromStored stored
          | [] => map fromStored stored
          end)
  else h.

(** [loadHistory] when the store rejects. *)
Definition loadHistoryFail (now : nat) (h : Hook) : Hook :=
  mkHook (store h) (messages h ++ [errorMessage now "Could not load saved conversation history."]).

(** [addMessage] when [addMessageToDB] resolves: the new message, with id
    [`db-${dbId}`], is appended and returned. *)
Definition addMessageOk (sid : string) (md : MessageData) (now : nat) (h : Hook)
    : Hook * UiMessage :=
  let '(k, st') := addMessageToDB (store h) md sid (Z.of_nat now) in
  let newMessage := mkUi (dbMessageId (Some k)) (mdRole md) (mdText md)
                         (mdImageUrl md) (mdImageMimeType md) in
  (mkHook st' (messages h ++ [newMessage]), newMessage).

(** [addMessage] when [addMessageToDB] rejects (returns [null]). *)
Definition addMessageFail (now : nat) (h : Hook) : Hook :=
  mkHook (store h) (messages h ++ [errorMessage now "Failed to save your message."]).

(** [addTempMessage]: [rnd] is [`${Math.random()}`]. *)
Definition addTempMessage (md : MessageData) (now : nat) (rnd : string) (h : Hook) : Hook :=
  mkHook (store h)
    (messages h ++ [mkUi (natToString now ++ "-" ++ rnd) (mdRole md) (mdText md)
                         (mdImageUrl md) (mdImageMimeType md)]).

Definition errorData (text : string) : MessageData := mkMessageData ERROR (Some text) None None.

(** [deleteMessage(dbId)] when the store deletes. *)
Definition deleteMessageOk (dbId : nat) (h : Hook) : Hook :=
  mkHook (deleteMessageFromDB (store h) dbId)
    (filter (fun m => negb (String.eqb (uid m) (dbMessageId (Some dbId)))) (messages h)).

(** [deleteMessage(dbId)] when the store rejects. *)
Definition deleteMessageFail (now : nat) (rnd : string) (h : Hook) : Hook :=
  addTempMessage (errorData "Failed to delete the message.") now rnd h.

(** [clearHistory] when the store clears the session. *)
Definition clearHistoryOk (sid : string) (h : Hook) : Hook :=
  mkHook (clearAllMessages (store h) sid)
    (filter (fun m => String.eqb (uid m) "initial") (messages h)).

(** [clearHistory] when the store rejects. *)
Definition clearHistoryFail (now : nat) (rnd : string) (h : Hook) : Hook :=
  addTempMessage (errorData "Failed to clear history.") now rnd h.

Inductive HookOp :=
| HLoadOk
| HLoadFail (now : nat)
| HAdd (md : MessageData) (now : nat)
| HAddFail (now : nat)
| HTemp (md : MessageData) (now : nat) (rnd : string)
| HDelete (dbId : nat)
| HDeleteFail (now : nat) (rnd : string)
| HClear
| HClearFail (now : nat) (rnd : string).

Definition stepHook (sid : string) (h : Hook) (op : HookOp) : Hook :=
  match op with
  | HLoadOk => loadHistoryOk sid h
  | HLoadFail now => loadHistoryFail now h
  | HAdd md now => fst (addMessageOk sid md now h)
  | HAddFail now => addMessageFail now h
  | HTemp md now rnd => addTempMessage md now rnd h
  | HDelete k => deleteMessageOk k h
  | HDeleteFail now rnd => deleteMessageFail now rnd h
  | HClear => clearHistoryOk sid h
  | HClearFail now rnd => clearHistoryFail now rnd h
  end.

Definition runHook (sid : string) (h : Hook) (ops : list HookOp) : Hook :=
  fold_left (stepHook sid) ops h.

(** [getSessionId]: [stored] is [localStorage.getItem('sessionId')] and
    [uuid] the value [crypto.randomUUID()] would return.  Returns the id
    and the stored item afterwards. *)
Definition getSessionId (stored : option string) (uuid : string) : string * option string :=
  match stored with
  | Some s => if String.eqb s "" then (uuid, Some uuid) else (s, stored)
  | None => (uuid, Some uuid)
  end.

End Conversation.

(** *** The send path of src/App.tsx ([handleSendMessage]) *)
Module AppFlow.
Import Conversation.

Definition toGeminiRole (r : Db.Role) : Gemini.Role :=
  match r with Db.USER => Gemini.USER | Db.MODEL => Gemini.MODEL | Db.ERROR => Gemini.ERROR end.

(** A [Message] as [generateImage] reads it. *)
Definition toGeminiMessage (m : UiMessage) : Gemini.Message :=
  Gemini.mkMessage (uid m) (toGeminiRole (urole m)) (utext m).

(** [handleSendMessage]: the user's message is saved first; the request
    then gets [historyForAI = [...messages, newUserMessage]], where
    [messages] is the list before the save. *)
Definition sendMessageRequest (sid : string) (h : Hook) (prompt aspectRatio : string)
    (style : Gemini.GenerationStyle) (negativePrompt : string) (now : nat)
    : Hook * Gemini.Request :=
  let userMessageData := Db.mkMessageData Db.USER (Some prompt) None None in
  let '(h', newUserMessage) := addMessageOk sid userMessageData now h in
  let historyForAI := messages h ++ [newUserMessage] in
  (h', Gemini.buildGenerateRequest prompt aspectRatio style negativePrompt
         (map toGeminiMessage historyForAI)).

End AppFlow.

(* ================================================================= *)
(** ** Theorems *)
(* ================================================================= *)

Module MaskHistoryFacts.
Import MaskHistory.

Example saveState_after_blank :
  saveState (mkMask ["b"%string] 0) (Some "s1"%string) = mkMask ["b"; "s1"]%string 1.
Proof. reflexivity. Qed.

Lemma js_slice0_nonneg {A} (l : list A) (n : Z) :
  (0 <= n)%Z -> js_slice0 l n = firstn (Z.to_nat n) l.
Proof.
  intros Hn. unfold js_slice0.
  destruct (Z.ltb_spec n 0); [lia | reflexivity].
Qed.

(** A commit at a valid cursor keeps the prefix up to the cursor. *)
Lemma saveState_valid (h : list DataUrl) (i : Z) (s : DataUrl) :
  (0 <= i < Z.of_nat (List.length h))%Z ->
  saveState (mkMask h i) (Some s)
  = mkMask (firstn (Z.to_nat i + 1) h ++ [s]) (i + 1).
Proof.
  intros [H0 H1]. unfold saveState; simpl.
  rewrite js_slice0_nonneg by lia.
  replace (Z.to_nat (i + 1)) with (Z.to_nat i + 1)%nat by lia.
  f_equal. rewrite length_app, length_firstn. simpl. lia.
Qed.

Lemma runMask_cons (st : MaskState) (op : MaskOp) (ops : list MaskOp) :
  runMask st (op :: ops) = runMask (stepMask st op) ops.
Proof. reflexivity. Qed.

Lemma commits_from_top (h ss : list DataUrl) :
  h <> [] ->
  runMask (mkMask h (Z.of_nat (List.length h) - 1)) (commits ss)
  = mkMask (h ++ ss) (Z.of_nat (List.length (h ++ ss)) - 1).
Proof.
  revert h. induction ss as [|s ss IH]; intros h Hne.
  - simpl. rewrite app_nil_r. reflexivity.
  - change (commits (s :: ss)) with (Commit s :: commits ss).
    rewrite runMask_cons. change (stepMask ?st (Commit s)) with (saveState st (Some s)).
    assert (Hlen : (0 < List.length h)%nat) by (destruct h; [congruence | simpl; lia]).
    rewrite saveState_valid by lia.
    replace (Z.to_nat (Z.of_nat (List.length h) - 1) + 1)%nat with (List.length h) by lia.
    rewrite firstn_all.
    replace (Z.of_nat (List.length h) - 1 + 1)%Z
      with (Z.of_nat (List.length (h ++ [s])) - 1)%Z
      by (rewrite length_app; simpl; lia).
    rewrite IH by (destruct h; simpl; congruence).
    rewrite <- app_assoc. reflexivity.
Qed.

Lemma undos_within (h : list DataUrl) (i : Z) (k : nat) :
  (Z.of_nat k <= i)%Z ->
  runMask (mkMask h i) (undos k) = mkMask h (i - Z.of_nat k).
Proof.
  revert i. induction k as [|k IH]; intros i Hk.
  - simpl. f_equal. lia.
  - change (undos (S k)) with (Undo :: undos k).
    rewrite runMask_cons. change (stepMask ?st Undo) with (undo st).
    unfold undo. simpl.
    destruct (Z.ltb_spec 0 i); [|lia].
    rewrite IH by lia. f_equal. lia.
Qed.

Lemma stepMask_invariant (st : MaskState) (op : MaskOp) :
  cursorInvariant st -> cursorInvariant (stepMask st op).
Proof.
  destruct st as [h i]. unfold cursorInvariant; simpl. intros Hi.
  destruct op as [s| | |b]; cbn [stepMask handleClearMask].
  - rewrite saveState_valid by lia. simpl.
    rewrite length_app, length_firstn. simpl. lia.
  - unfold undo; simpl. destruct (Z.ltb_spec 0 i); simpl; lia.
  - unfold redo; simpl. destruct (Z.ltb_spec i (Z.of_nat (List.length h) - 1)); simpl; lia.
  - rewrite saveState_valid by lia. simpl.
    rewrite length_app, length_firstn. simpl. lia.
Qed.

Lemma stepMask_head (st : MaskState) (op : MaskOp) :
  cursorInvariant st ->
  js_index (history (stepMask st op)) 0 = js_index (history st) 0.
Proof.
  destruct st as [h i]. unfold cursorInvariant; simpl. intros Hi.
  unfold js_index; simpl.
  destruct h as [|x h]; [simpl in Hi; lia|].
  destruct op as [s| | |b]; cbn [stepMask handleClearMask].
  - rewrite saveState_valid by (simpl in *; lia). simpl.
    replace (Z.to_nat i + 1)%nat with (S (Z.to_nat i)) by lia. reflexivity.
  - unfold undo; simpl. destruct (0 <? i)%Z; reflexivity.
  - unfold redo; simpl. destruct (_ <? _)%Z; reflexivity.
  - rewrite saveState_valid by (simpl in *; lia). simpl.
    replace (Z.to_nat i + 1)%nat with (S (Z.to_nat i)) by lia. reflexivity.
Qed.

Lemma runMask_invariant_head (st : MaskState) (ops : list MaskOp) :
  cursorInvariant st ->
  cursorInvariant (runMask st ops)
  /\ js_index (history (runMask st ops)) 0 = js_index (history st) 0.
Proof.
  revert st. induction ops as [|op ops IH]; intros st Hst.
  - split; [exact Hst | reflexivity].
  - rewrite runMask_cons.
    destruct (IH (stepMask st op) (stepMask_invariant st op Hst)) as [H1 H2].
    split; [exact H1|]. rewrite H2. apply stepMask_head. exact Hst.
Qed.

(** C1 (as amended).  From the state with the blank snapshot installed,
    [N] commits followed by [K <= N] undos display the snapshot at index
    [N - K]; a further commit keeps the first [N - K + 1] snapshots, adds
    the new one and leaves the cursor on it, so redo does nothing.  When a
    stroke is painted, undone, and a new stroke painted, the history
    length is the cursor before the undo plus one. *)
Theorem mask_undo_redo_semantics :
  forall (blank : DataUrl) (ss : list DataUrl) (K : nat) (s : DataUrl),
    (K <= List.length ss)%nat ->
    let st1 := runMask (mkMask [blank] 0) (commits ss) in
    let st2 := runMask st1 (undos K) in
    let st3 := saveState st2 (Some s) in
    history st1 = blank :: ss
    /\ displayedMask st2 = nth_error (blank :: ss) (List.length ss - K)
    /\ history st3 = firstn (List.length ss - K + 1) (blank :: ss) ++ [s]
    /\ historyIndex st3 = (Z.of_nat (List.length (history st3)) - 1)%Z
    /\ redo st3 = st3
    /\ (forall (st : MaskState) (a b : DataUrl),
          cursorInvariant st ->
          Z.of_nat (List.length (history (saveState (undo (saveState st (Some a))) (Some b))))
          = (historyIndex (saveState st (Some a)) + 1)%Z).
Proof.
  intros blank ss K s HK st1 st2 st3.
  assert (E1 : st1 = mkMask (blank :: ss) (Z.of_nat (List.length ss))).
  { unfold st1.
    pose proof (commits_from_top [blank] ss ltac:(congruence)) as Hc.
    replace (Z.of_nat (List.length [blank]) - 1)%Z with 0%Z in Hc by reflexivity.
    rewrite Hc. f_equal. rewrite length_app. cbn [List.length]. lia. }
  assert (E2 : st2 = mkMask (blank :: ss) (Z.of_nat (List.length ss - K))).
  { unfold st2. rewrite E1, undos_within by lia. f_equal. lia. }
  assert (E3 : st3 = mkMask (firstn (List.length ss - K + 1) (blank :: ss) ++ [s])
                            (Z.of_nat (List.length ss - K) + 1)).
  { unfold st3. rewrite E2, saveState_valid by (simpl; lia).
    rewrite Nat2Z.id. reflexivity. }
  assert (L3 : List.length (firstn (List.length ss - K + 1) (blank :: ss) ++ [s])
               = (List.length ss - K + 2)%nat).
  { rewrite length_app, length_firstn. simpl. lia. }
  split; [rewrite E1; reflexivity|].
  split.
  { rewrite E2. unfold displayedMask, js_index. simpl.
    destruct (Z.ltb_spec (Z.of_nat (List.length ss - K)) 0); [lia|].
    rewrite Nat2Z.id. reflexivity. }
  split; [rewrite E3; reflexivity|].
  split; [rewrite E3; simpl; rewrite L3; lia|].
  split.
  { rewrite E3. unfold redo. simpl. rewrite L3.
    destruct (Z.ltb_spec (Z.of_nat (List.length ss - K) + 1)
                        (Z.of_nat (List.length ss - K + 2) - 1)); [lia|reflexivity]. }
  intros [h i] a b Hinv. unfold cursorInvariant in Hinv; simpl in Hinv.
  rewrite saveState_valid by exact Hinv.
  unfold undo. cbn [history historyIndex].
  destruct (Z.ltb_spec 0 (i + 1)); [|lia].
  rewrite saveState_valid
    by (rewrite length_app, length_firstn; cbn [List.length]; lia).
  cbn [history historyIndex].
  rewrite length_app, length_firstn, length_app, length_firstn. cbn [List.length]. lia.
Qed.

(** C1: the scenario as stated fails: after painting a stroke, undoing it
    and painting another, the history has two snapshots, while the cursor
    before the undo was 1, not 0. *)
Lemma mask_scenario_counterexample :
  let st1 := saveState (mkMask ["blank"%string] 0) (Some "s1"%string) in
  let st3 := saveState (undo st1) (Some "s2"%string) in
  Z.of_nat (List.length (history st3)) <> (historyIndex st1 + 2)%Z.
Proof. vm_compute. discriminate. Qed.

(** C7: the initial state of the editor is outside the cursor invariant. *)
Lemma mask_initial_counterexample : ~ cursorInvariant initialMask.
Proof. unfold cursorInvariant; simpl. lia. Qed.

(** C7 (as amended).  Once the blank snapshot is installed on the initial
    (or reset) state, [0 <= historyIndex < history.length] holds and
    [history[0]] is the blank snapshot, after any sequence of stroke
    commits, undos, redos and clears. *)
Theorem mask_cursor_invariant :
  forall (blank : DataUrl) (ops : list MaskOp),
    blank <> "data:,"%string ->
    let st := runMask (installBlank initialMask blank) ops in
    cursorInvariant st /\ js_index (history st) 0 = Some blank.
Proof.
  intros blank ops Hb st.
  assert (E : installBlank initialMask blank = mkMask [blank] 0).
  { unfold installBlank; simpl.
    destruct (String.eqb_spec blank "data:,"); [congruence|reflexivity]. }
  unfold st. rewrite E.
  destruct (runMask_invariant_head (mkMask [blank] 0) ops) as [H1 H2].
  - unfold cursorInvariant; simpl; lia.
  - split; [exact H1|]. rewrite H2. reflexivity.
Qed.

Lemma mask_cursor_invariant_witness :
  "blank"%string <> "data:,"%string
  /\ cursorInvariant (runMask (installBlank initialMask "blank"%string)
                              [Commit "s1"%string; Undo; Commit "s2"%string; Redo; Clear "blank"%string])
  /\ js_index (history (runMask (installBlank initialMask "blank"%string)
                                [Commit "s1"%string; Undo; Commit "s2"%string; Redo; Clear "blank"%string])) 0
     = Some "blank"%string.
Proof.
  assert (Hb : "blank"%string <> "data:,"%string) by discriminate.
  split; [exact Hb|].
  exact (mask_cursor_invariant "blank"%string
           [Commit "s1"%string; Undo; Commit "s2"%string; Redo; Clear "blank"%string] Hb).
Defined.

Lemma mask_undo_redo_semantics_witness :
  (1 <= List.length ["s1"%string; "s2"%string])%nat
  /\ history (runMask (mkMask ["blank"%string] 0) (commits ["s1"%string; "s2"%string]))
     = ["blank"; "s1"; "s2"]%string.
Proof.
  assert (HK : (1 <= List.length ["s1"%string; "s2"%string])%nat) by (simpl; lia).
  split; [exact HK|].
  exact (proj1 (mask_undo_redo_semantics "blank"%string ["s1"%string; "s2"%string] 1
                  "s3"%string HK)).
Defined.

End MaskHistoryFacts.

Module CropFacts.
Import Crop.
Local Open Scope Q_scope.

Example drag_nw_past_corner :
  normalizeBox (dragRaw Hnw (mkBox 10 10 20 20) 30 5) = mkBox 30 15 (Qabs (-10)) 15.
Proof. vm_compute. reflexivity. Qed.

Lemma js_lt_true (a b : Q) : js_lt a b = true -> a < b.
Proof.
  unfold js_lt. intros H. apply negb_true_iff in H.
  apply Qnot_le_lt. intros Hle. apply Qle_bool_iff in Hle. congruence.
Qed.

Lemma js_lt_false (a b : Q) : js_lt a b = false -> b <= a.
Proof.
  unfold js_lt. intros H. apply negb_false_iff in H. apply Qle_bool_iff. exact H.
Qed.

Lemma between_spec (a b p : Q) :
  between a b p = true <-> (a <= p <= b \/ b <= p <= a).
Proof.
  unfold between. rewrite andb_true_iff, !Qle_bool_iff.
  destruct (Q.min_spec a b) as [[H1 H2]|[H1 H2]];
  destruct (Q.max_spec a b) as [[H3 H4]|[H3 H4]];
  rewrite H2, H4; split; intros; lra.
Qed.

(** Flipping a negative extent describes the same interval. *)
Lemma between_flip (a w p : Q) :
  w < 0 -> between (a + w) (a + w + Qabs w) p = between a (a + w) p.
Proof.
  intros Hw. assert (Habs : Qabs w == - w) by (apply Qabs_neg; lra).
  apply eq_true_iff_eq. rewrite !between_spec. lra.
Qed.

Lemma normalizeBox_props (b : CropBox) :
  let b' := normalizeBox b in
  0 <= width b' /\ 0 <= height b'
  /\ (width b < 0 -> x b' == x b + width b /\ width b' == - width b)
  /\ (0 <= width b -> x b' = x b /\ width b' = width b)
  /\ (height b < 0 -> y b' == y b + height b /\ height b' == - height b)
  /\ (0 <= height b -> y b' = y b /\ height b' = height b)
  /\ (forall p, inRegion b' p = inRegion b p).
Proof.
  destruct b as [x0 y0 w h]. unfold normalizeBox. cbn [width height x y].
  destruct (js_lt w 0) eqn:Ew; cbn [width height x y];
  destruct (js_lt h 0) eqn:Eh; cbn [width height x y];
  [apply js_lt_true in Ew, Eh | apply js_lt_true in Ew; apply js_lt_false in Eh
  | apply js_lt_false in Ew; apply js_lt_true in Eh | apply js_lt_false in Ew, Eh];
  (assert (Aw : w < 0 -> Qabs w == - w) by (intros; apply Qabs_neg; lra));
  (assert (Ah : h < 0 -> Qabs h == - h) by (intros; apply Qabs_neg; lra));
  unfold inRegion; cbn [width height x y fst snd];
  repeat split; intros;
  try (rewrite between_flip by lra);
  try (rewrite (between_flip y0 h) by lra);
  try reflexivity;
  try (apply Qabs_nonneg);
  try lra.
Qed.

(** C2.  For every handle (the eight resize handles and move) and every
    drag delta applied to the active crop box, the mouse-move handler
    yields a box with non-negative width and height; a negative raw
    width (height) moves the origin by that amount and is replaced by its
    absolute value, and the box covers the same region as the raw box. *)
Theorem crop_drag_normalization :
  forall (h : CropHandle) (b : CropBox) (start pos : Q * Q),
    let raw := dragRaw h b (fst pos - fst start) (snd pos - snd start) in
    exists b',
      cropMouseMove true (Some h) (Some b) start pos = Some (b', pos)
      /\ 0 <= width b' /\ 0 <= height b'
      /\ (width raw < 0 -> x b' == x raw + width raw /\ width b' == Qabs (width raw))
      /\ (0 <= width raw -> x b' = x raw /\ width b' = width raw)
      /\ (height raw < 0 -> y b' == y raw + height raw /\ height b' == Qabs (height raw))
      /\ (0 <= height raw -> y b' = y raw /\ height b' = height raw)
      /\ (forall p, inRegion b' p = inRegion raw p).
Proof.
  intros h b start pos raw.
  exists (normalizeBox raw). split; [reflexivity|].
  destruct (normalizeBox_props raw) as (H1 & H2 & H3 & H4 & H5 & H6 & H7).
  repeat split; try assumption.
  - apply H3. assumption.
  - destruct (H3 H) as [_ E]. rewrite E, Qabs_neg by lra. reflexivity.
  - apply H4. assumption.
  - apply H4. assumption.
  - apply H5. assumption.
  - destruct (H5 H) as [_ E]. rewrite E, Qabs_neg by lra. reflexivity.
  - apply H6. assumption.
  - apply H6. assumption.
Qed.

End CropFacts.

Module ViewerFacts.
Import Viewer.
Local Open Scope Q_scope.

(** Where the content under the mouse ends up after a wheel step: it is
    displaced by [(cw / 2) * (1 - newScale / scale)], the container
    centre (the transform origin) scaled by the zoom step. *)
Lemma handleWheel_drift_x (cw ch iw ih : Q) (st : ViewerState)
    (deltaY clientX clientY rectLeft rectTop : Q) :
  ~ scale st == 0 ->
  let st' := handleWheel st deltaY clientX clientY (Some (rectLeft, rectTop)) in
  let m := (clientX - rectLeft, clientY - rectTop) in
  fst (screenOf cw ch iw ih st' (contentUnder cw ch iw ih st m))
  == fst m + (cw / 2) * (1 - scale st' / scale st).
Proof.
  intros Hs st' m. unfold st', m, handleWheel, screenOf, contentUnder. simpl.
  field. exact Hs.
Qed.

(** C5 (failing input).  Container 800 x 600 at the origin, image
    400 x 300, scale 1, no pan; one wheel step up ([deltaY = -100]) at
    [(500, 300)].  The image point under the mouse before the step is
    shown at [(420, 240)] after it, not at [(500, 300)]. *)
Theorem zoom_focal_point_drifts :
  let st := mkViewer 1 (0, 0) in
  let st' := handleWheel st (-100) 500 300 (Some (0, 0)) in
  let q := contentUnder 800 600 400 300 st (500, 300) in
  scale st' == 6 # 5
  /\ Qpair_eqb (screenOf 800 600 400 300 st q) (500, 300) = true
  /\ Qpair_eqb (screenOf 800 600 400 300 st' q) (420, 240) = true
  /\ Qpair_eqb (screenOf 800 600 400 300 st' q) (500, 300) = false.
Proof. vm_compute. repeat split; reflexivity. Qed.

End ViewerFacts.

Module GeminiFacts.
Import Gemini.
Local Open Scope string_scope.

(** [msg.includes(s)] *)
Definition Substr (s msg : string) : Prop := exists pre suf, msg = pre ++ s ++ suf.

Lemma sappend_assoc (a b c : string) : (a ++ b) ++ c = a ++ (b ++ c).
Proof. induction a as [|ch a IH]; simpl; [reflexivity|]. rewrite IH. reflexivity. Qed.

Lemma sappend_nil_r (a : string) : a ++ "" = a.
Proof. induction a as [|ch a IH]; simpl; [reflexivity|]. rewrite IH. reflexivity. Qed.

Lemma Substr_app_r (s m rest : string) : Substr s m -> Substr s (m ++ rest).
Proof.
  intros (pre & suf & ->). exists pre, (suf ++ rest).
  rewrite !sappend_assoc. reflexivity.
Qed.

Example safety_message :
  noImageMessage EDIT_DEFAULT_MESSAGE
    (mkResponse (Some [mkCandidate (Some (mkContent (Some []))) (Some "SAFETY")])
                (Some "  blocked ")) =
  "Image generation failed with reason: SAFETY. The model responded with: "
    ++ dq ++ "blocked" ++ dq.
Proof. reflexivity. Qed.

Lemma noImageMessage_props (def : string) (r : Response) :
  (forall fr, firstFinishReason r = Some fr -> fr <> "STOP" ->
              Substr fr (noImageMessage def r))
  /\ (forall t, text r = Some t -> trim t <> "" ->
                exists pre, noImageMessage def r
                            = pre ++ " The model responded with: " ++ dq ++ trim t ++ dq).
Proof.
  unfold noImageMessage.
  set (m1 := match firstFinishReason r with
             | Some fr =>
                 if truthy (firstFinishReason r) && negb (String.eqb fr "STOP")
                 then "Image generation failed with reason: " ++ fr ++ "."
                 else def
             | None => def
             end).
  assert (Hm1 : forall fr, firstFinishReason r = Some fr -> fr <> "STOP" -> Substr fr m1).
  { intros fr Hfr Hns. unfold m1. rewrite Hfr.
    destruct fr as [|c fr'].
    - exists "", def. reflexivity.
    - replace (String.eqb (String c fr') "STOP") with false
        by (symmetry; apply String.eqb_neq; exact Hns).
      cbn [truthy negb andb].
      exists "Image generation failed with reason: ", ".". reflexivity. }
  split.
  - intros fr Hfr Hns. specialize (Hm1 fr Hfr Hns).
    destruct (text r) as [t|]; [|exact Hm1].
    destruct (truthy (Some (trim t))); [|exact Hm1].
    apply Substr_app_r. exact Hm1.
  - intros t Ht Hne. rewrite Ht.
    destruct (trim t) as [|c t'] eqn:Et; [congruence|]. simpl.
    exists m1. reflexivity.
Qed.

Lemma editImage_throws_Error (svc : Service) (p : string) (img : ImageData)
    (mask : option ImageData) (e : Thrown) :
  editImage svc p img mask = Throw e -> exists m, e = JsError m.
Proof.
  unfold editImage. destruct (svc _) as [r|e0].
  - destruct (firstImage (firstParts r)); intros H; inversion H; subst; simpl; eauto.
  - intros H; inversion H; subst. destruct e0 as [m|[m|]|]; simpl; eauto.
Qed.

(** C8.  For any response of the service, [generateImage] and
    [editImage] throw exactly when the response has no image part, and
    otherwise return the first image part.  The thrown value is an
    [Error] whose message contains the finish reason when it is not
    ['STOP'], and ends with the trimmed response text when that is
    non-empty.  With no image part and finish reason ['SAFETY'] the
    message contains ['SAFETY']. *)
Theorem no_image_failure_surfacing :
  forall (r : Response) (prompt aspectRatio negativePrompt : string)
         (style : GenerationStyle) (hist : list Message)
         (image : ImageData) (mask : option ImageData),
    let gen := generateImage (fun _ => Responded r) prompt aspectRatio style
                 negativePrompt hist in
    let edit := editImage (fun _ => Responded r) prompt image mask in
    ((exists e, gen = Throw e) <-> firstImage (firstParts r) = None)
    /\ ((exists e, edit = Throw e) <-> firstImage (firstParts r) = None)
    /\ (forall d, firstImage (firstParts r) = Some d -> gen = Ok d /\ edit = Ok d)
    /\ (firstImage (firstParts r) = None ->
        exists mg me,
          gen = Throw (JsError mg) /\ edit = Throw (JsError me)
          /\ (forall fr, firstFinishReason r = Some fr -> fr <> "STOP" ->
                         Substr fr mg /\ Substr fr me)
          /\ (forall t, text r = Some t -> trim t <> "" ->
                exists pg pe,
                  mg = pg ++ " The model responded with: " ++ dq ++ trim t ++ dq
                  /\ me = pe ++ " The model responded with: " ++ dq ++ trim t ++ dq)
          /\ (firstFinishReason r = Some "SAFETY" ->
              Substr "SAFETY" mg /\ Substr "SAFETY" me)).
Proof.
  intros r prompt aspectRatio negativePrompt style hist image mask gen edit.
  assert (Eg : gen = match firstImage (firstParts r) with
                     | Some d => Ok d
                     | None => Throw (JsError (noImageMessage GENERATE_DEFAULT_MESSAGE r))
                     end)
    by (unfold gen, generateImage; destruct (firstImage (firstParts r)); reflexivity).
  assert (Ee : edit = match firstImage (firstParts r) with
                      | Some d => Ok d
                      | None => Throw (JsError (noImageMessage EDIT_DEFAULT_MESSAGE r))
                      end)
    by (unfold edit, editImage; destruct (firstImage (firstParts r)); reflexivity).
  destruct (noImageMessage_props GENERATE_DEFAULT_MESSAGE r) as [G1 G2].
  destruct (noImageMessage_props EDIT_DEFAULT_MESSAGE r) as [E1 E2].
  rewrite Eg, Ee.
  destruct (firstImage (firstParts r)) as [d|] eqn:Ef.
  - split; [split; [intros [e He]; discriminate | discriminate]|].
    split; [split; [intros [e He]; discriminate | discriminate]|].
    split; [intros d' Hd; inversion Hd; subst; split; reflexivity|].
    discriminate.
  - split; [split; [reflexivity | intros _; eexists; reflexivity]|].
    split; [split; [reflexivity | intros _; eexists; reflexivity]|].
    split; [discriminate|].
    intros _. eexists; eexists. split; [reflexivity|]. split; [reflexivity|].
    split; [intros fr Hfr Hns; split; [apply G1 | apply E1]; assumption|].
    split.
    + intros t Ht Hne.
      destruct (G2 t Ht Hne) as [pg Hg]. destruct (E2 t Ht Hne) as [pe He].
      exists pg, pe. split; assumption.
    + intros Hs. split; [apply G1 | apply E1]; try exact Hs; discriminate.
Qed.

Definition safetyResponse : Response :=
  mkResponse (Some [mkCandidate (Some (mkContent (Some []))) (Some "SAFETY")]) None.

Lemma no_image_failure_surfacing_witness :
  firstImage (firstParts safetyResponse) = None
  /\ firstFinishReason safetyResponse = Some "SAFETY"
  /\ Substr "SAFETY" (noImageMessage EDIT_DEFAULT_MESSAGE safetyResponse).
Proof.
  assert (H1 : firstImage (firstParts safetyResponse) = None) by reflexivity.
  assert (H2 : firstFinishReason safetyResponse = Some "SAFETY") by reflexivity.
  split; [exact H1|]. split; [exact H2|].
  destruct (proj2 (proj2 (proj2 (no_image_failure_surfacing safetyResponse "p" "1:1" ""
              Default [] (mkImageData "image/png" "AAAA") None))) H1)
    as (mg & me & Hg & He & _ & _ & Hs).
  destruct (Hs H2) as [_ Hme].
  unfold editImage in He. simpl in He. inversion He as [Hm]. rewrite Hm. exact Hme.
Defined.

(** C9.  [enhanceImage] and [removeBackground] call [editImage] with their
    fixed prompts; they return its image, and when it fails (always with
    an [Error]) they throw an [Error] whose message is the stage prefix
    followed by the underlying message. *)
Theorem stage_error_rewrap :
  forall (svc : Service) (image : ImageData),
    (forall d, editImage svc ENHANCE_PROMPT image None = Ok d ->
               enhanceImage svc image = Ok d)
    /\ (forall e, editImage svc ENHANCE_PROMPT image None = Throw e ->
                  exists m, e = JsError m
                            /\ enhanceImage svc image = Throw (JsError ("Enhancement failed: " ++ m)))
    /\ (forall d, editImage svc REMOVE_BACKGROUND_PROMPT image None = Ok d ->
                  removeBackground svc image = Ok d)
    /\ (forall e, editImage svc REMOVE_BACKGROUND_PROMPT image None = Throw e ->
                  exists m, e = JsError m
                            /\ removeBackground svc image
                               = Throw (JsError ("Background removal failed: " ++ m))).
Proof.
  intros svc image.
  unfold enhanceImage, removeBackground.
  repeat split.
  - intros d H. rewrite H. reflexivity.
  - intros e H. destruct (editImage_throws_Error _ _ _ _ _ H) as [m ->].
    exists m. rewrite H. split; reflexivity.
  - intros d H. rewrite H. reflexivity.
  - intros e H. destruct (editImage_throws_Error _ _ _ _ _ H) as [m ->].
    exists m. rewrite H. split; reflexivity.
Qed.

Lemma stage_error_rewrap_witness :
  let svc : Service := fun _ => Responded safetyResponse in
  editImage svc ENHANCE_PROMPT (mkImageData "image/png" "AAAA") None
    = Throw (JsError "Image generation failed with reason: SAFETY.")
  /\ enhanceImage svc (mkImageData "image/png" "AAAA")
     = Throw (JsError ("Enhancement failed: " ++ "Image generation failed with reason: SAFETY.")).
Proof.
  intros svc.
  assert (H : editImage svc ENHANCE_PROMPT (mkImageData "image/png" "AAAA") None
              = Throw (JsError "Image generation failed with reason: SAFETY.")) by reflexivity.
  split; [exact H|].
  destruct (proj1 (proj2 (stage_error_rewrap svc (mkImageData "image/png" "AAAA"))) _ H)
    as (m & Hm & He).
  inversion Hm; subst. exact He.
Defined.

End GeminiFacts.

Module DbFacts.
Import Db.
Local Open Scope string_scope.

Example two_sessions :
  let st1 := snd (addMessageToDB emptyStore (mkMessageData USER (Some "hi") None None) "A" 5) in
  let st2 := snd (addMessageToDB st1 (mkMessageData MODEL (Some "yo") None None) "B" 7) in
  List.length (getAllMessagesFromDB st2 "B") = 1%nat
  /\ List.length (getAllMessagesFromDB (clearAllMessages st2 "A") "A") = 0%nat
  /\ getAllMessagesFromDB (clearAllMessages st2 "A") "B" = getAllMessagesFromDB st2 "B".
Proof. repeat split; reflexivity. Qed.

(** Store well-formedness: each record carries its key as [id], keys are
    below the key generator, and keys are unique. *)
Definition wfStore (st : Store) : Prop :=
  (forall k r, In (k, r) (records st) -> id r = Some k /\ (k < currentKey st)%nat)
  /\ NoDup (map fst (records st)).

Lemma wf_empty : wfStore emptyStore.
Proof. split; [intros k r []|constructor]. Qed.

Lemma NoDup_map_fst_filter (f : nat * StoredMessage -> bool) (l : list (nat * StoredMessage)) :
  NoDup (map fst l) -> NoDup (map fst (filter f l)).
Proof.
  induction l as [|a l IH]; simpl; intros H; [constructor|].
  inversion H as [|? ? Hn Hd]; subst.
  destruct (f a); simpl; [|auto].
  constructor; [|auto].
  intros Hin. apply Hn. apply in_map_iff in Hin as (b & Eb & Hb).
  apply filter_In in Hb as [Hb _]. rewrite <- Eb. apply in_map. exact Hb.
Qed.

Lemma wf_delete (st : Store) (k : nat) : wfStore st -> wfStore (storeDelete st k).
Proof.
  intros [H1 H2]. split; simpl.
  - intros k' r Hin. apply filter_In in Hin as [Hin _]. apply H1. exact Hin.
  - apply NoDup_map_fst_filter. exact H2.
Qed.

Lemma wf_deletes (ks : list nat) (st : Store) :
  wfStore st -> wfStore (fold_left storeDelete ks st).
Proof.
  revert st. induction ks as [|k ks IH]; simpl; intros st H; [exact H|].
  apply IH. apply wf_delete. exact H.
Qed.

Lemma wf_add (st : Store) (m : MessageData) (s : string) (now : Z) :
  wfStore st -> wfStore (snd (addMessageToDB st m s now)).
Proof.
  intros [H1 H2]. split; simpl.
  - intros k r Hin. apply in_app_or in Hin as [Hin|[Hin|[]]].
    + destruct (H1 k r Hin). split; [assumption|lia].
    + inversion Hin; subst. split; [reflexivity|lia].
  - rewrite map_app. apply NoDup_app; [exact H2 | repeat constructor; simpl; tauto |].
    intros k Hk [Hk'|[]]. simpl in Hk'. subst k.
    apply in_map_iff in Hk as ((k', r) & Ek & Hin). simpl in Ek. subst k'.
    destruct (H1 _ _ Hin). lia.
Qed.

Lemma wf_step (st : Store) (op : StoreOp) : wfStore st -> wfStore (stepStore st op).
Proof.
  destruct op; simpl; intros H.
  - apply wf_add. exact H.
  - apply wf_delete. exact H.
  - apply wf_deletes. exact H.
  - exact H.
Qed.

Lemma wf_run (st : Store) (ops : list StoreOp) : wfStore st -> wfStore (runStore st ops).
Proof.
  revert st. induction ops as [|op ops IH]; simpl; intros st H; [exact H|].
  apply IH. apply wf_step. exact H.
Qed.

Lemma filter_filter_andb {X} (f g : X -> bool) (l : list X) :
  filter f (filter g l) = filter (fun x => g x && f x) l.
Proof.
  induction l as [|a l IH]; simpl; [reflexivity|].
  destruct (g a); simpl; [destruct (f a); simpl|]; rewrite IH; reflexivity.
Qed.

Lemma deletes_records (ks : list nat) (st : Store) :
  records (fold_left storeDelete ks st)
  = filter (fun kr => negb (existsb (Nat.eqb (fst kr)) ks)) (records st)
  /\ currentKey (fold_left storeDelete ks st) = currentKey st.
Proof.
  revert st. induction ks as [|k ks IH]; intros st; simpl.
  - split; [|reflexivity]. symmetry. apply filter_true.
  - destruct (IH (storeDelete st k)) as [E1 E2]. rewrite E1, E2. simpl.
    split; [|reflexivity].
    rewrite filter_filter_andb. apply filter_ext. intros kr.
    rewrite negb_orb. reflexivity.
Qed.

(** Records only disappear or are added under fresh keys. *)
Lemma step_records (st : Store) (op : StoreOp) (k : nat) (r : StoredMessage) :
  In (k, r) (records (stepStore st op)) ->
  In (k, r) (records st) \/ (currentKey st <= k)%nat.
Proof.
  destruct op; simpl; intros Hin.
  - apply in_app_or in Hin as [Hin|[Hin|[]]]; [left; exact Hin|].
    inversion Hin; subst. right. lia.
  - apply filter_In in Hin as [Hin _]. left. exact Hin.
  - unfold clearAllMessages in Hin. rewrite (proj1 (deletes_records _ _)) in Hin.
    apply filter_In in Hin as [Hin _]. left. exact Hin.
  - left. exact Hin.
Qed.

Lemma step_currentKey (st : Store) (op : StoreOp) :
  (currentKey st <= currentKey (stepStore st op))%nat.
Proof.
  destruct op; simpl; try lia.
  unfold clearAllMessages. rewrite (proj2 (deletes_records _ _)). lia.
Qed.

Lemma run_records (ops : list StoreOp) (st : Store) (k : nat) (r : StoredMessage) :
  In (k, r) (records (runStore st ops)) ->
  In (k, r) (records st) \/ (currentKey st <= k)%nat.
Proof.
  revert st. induction ops as [|op ops IH]; simpl; intros st Hin; [left; exact Hin|].
  destruct (IH _ Hin) as [H|H].
  - destruct (step_records _ _ _ _ H) as [H'|H']; [left; exact H'|right; exact H'].
  - right. pose proof (step_currentKey st op). lia.
Qed.

Lemma insert_In (m x : StoredMessage) (l : list StoredMessage) :
  In x (insertByTimestamp m l) <-> x = m \/ In x l.
Proof.
  induction l as [|m' l IH]; simpl; [intuition congruence|].
  destruct (timestamp m <? timestamp m')%Z; simpl; [intuition congruence|].
  rewrite IH. intuition congruence.
Qed.

Lemma sort_In (x : StoredMessage) (l : list StoredMessage) :
  In x (sortByTimestamp l) <-> In x l.
Proof.
  unfold sortByTimestamp.
  assert (G : forall acc, In x (fold_left (fun acc m => insertByTimestamp m acc) l acc)
                          <-> In x acc \/ In x l).
  { induction l as [|a l IH]; intros acc; simpl; [tauto|].
    rewrite IH, insert_In. intuition congruence. }
  rewrite G. simpl. tauto.
Qed.

Lemma getAll_In (st : Store) (s : string) (r : StoredMessage) :
  In r (getAllMessagesFromDB st s)
  <-> exists k, In (k, r) (records st) /\ sessionId r = s.
Proof.
  unfold getAllMessagesFromDB. rewrite sort_In, in_map_iff.
  split.
  - intros ((k, r') & E & Hin). simpl in E. subst r'.
    apply filter_In in Hin as [Hin Hs]. simpl in Hs. apply String.eqb_eq in Hs.
    exists k. split; assumption.
  - intros (k & Hin & Hs). exists (k, r). split; [reflexivity|].
    apply filter_In. split; [exact Hin|]. simpl. apply String.eqb_eq. exact Hs.
Qed.

Lemma NoDup_fst_unique (l : list (nat * StoredMessage)) (k : nat) (r r' : StoredMessage) :
  NoDup (map fst l) -> In (k, r) l -> In (k, r') l -> r = r'.
Proof.
  induction l as [|[k0 r0] l IH]; simpl; intros Hd H1 H2; [contradiction|].
  inversion Hd as [|? ? Hn Hd']; subst.
  destruct H1 as [E1|H1], H2 as [E2|H2].
  - inversion E1; inversion E2; subst; reflexivity.
  - inversion E1; subst. exfalso. apply Hn. change k with (fst (k, r')). apply in_map. exact H2.
  - inversion E2; subst. exfalso. apply Hn. change k with (fst (k, r)). apply in_map. exact H1.
  - apply IH; assumption.
Qed.

Lemma clear_In (st : Store) (A : string) (k : nat) (r : StoredMessage) :
  wfStore st ->
  In (k, r) (records (clearAllMessages st A)) <-> In (k, r) (records st) /\ sessionId r <> A.
Proof.
  intros [_ Hd]. unfold clearAllMessages. rewrite (proj1 (deletes_records _ _)).
  rewrite filter_In. simpl.
  rewrite negb_true_iff, <- not_true_iff_false, existsb_exists.
  split.
  - intros [Hin Hn]. split; [exact Hin|]. intros Hs. apply Hn.
    exists k. split; [|apply Nat.eqb_refl].
    change k with (fst (k, r)). apply in_map. apply filter_In.
    split; [exact Hin|]. simpl. apply String.eqb_eq. exact Hs.
  - intros [Hin Hs]. split; [exact Hin|]. intros (k' & Hk' & Ek).
    apply Nat.eqb_eq in Ek. subst k'.
    apply in_map_iff in Hk' as ((k', r') & Ek & Hin'). simpl in Ek. subst k'.
    apply filter_In in Hin' as [Hin' Hs']. simpl in Hs'. apply String.eqb_eq in Hs'.
    rewrite (NoDup_fst_unique _ _ _ _ Hd Hin Hin') in Hs. contradiction.
Qed.

Lemma filter_filter_same {X} (f g : X -> bool) (l : list X) :
  (forall x, In x l -> f x = true -> g x = true) ->
  filter f (filter g l) = filter f l.
Proof.
  induction l as [|a l IH]; simpl; intros H; [reflexivity|].
  destruct (g a) eqn:Eg; simpl.
  - destruct (f a); rewrite IH by auto; reflexivity.
  - destruct (f a) eqn:Ef; [|apply IH; auto].
    rewrite (H a (or_introl eq_refl) Ef) in Eg. discriminate.
Qed.

Lemma clear_getAll_other (st : Store) (A B : string) :
  wfStore st -> A <> B ->
  getAllMessagesFromDB (clearAllMessages st A) B = getAllMessagesFromDB st B.
Proof.
  intros [_ Hd] Hab. unfold getAllMessagesFromDB, clearAllMessages.
  rewrite (proj1 (deletes_records _ _)).
  rewrite filter_filter_same; [reflexivity|].
  intros [k r] Hin Hs. simpl in Hs |- *. apply String.eqb_eq in Hs.
  apply negb_true_iff, not_true_iff_false. rewrite existsb_exists.
  intros (k' & Hk' & Ek). apply Nat.eqb_eq in Ek. subst k'.
  apply in_map_iff in Hk' as ((k', r') & Ek & Hin'). simpl in Ek. subst k'.
  apply filter_In in Hin' as [Hin' Hs']. simpl in Hs'. apply String.eqb_eq in Hs'.
  rewrite (NoDup_fst_unique _ _ _ _ Hd Hin Hin') in Hs. congruence.
Qed.

(** C10.  Let [A <> B].  After any operations, a message added under
    session [A] is never among [getAllMessagesFromDB(B)], whatever
    operations follow; and on any reachable store, [clearAllMessages(A)]
    removes exactly the records whose [sessionId] is [A] and leaves
    [getAllMessagesFromDB(B)] unchanged. *)
Theorem session_isolation :
  forall (A B : string), A <> B ->
    (forall (pre post : list StoreOp) (m : MessageData) (now : Z),
       let added := addMessageToDB (runStore emptyStore pre) m A now in
       forall r, In r (getAllMessagesFromDB (runStore (snd added) post) B) ->
                 id r <> Some (fst added))
    /\ (forall (ops : list StoreOp) (k : nat) (r : StoredMessage),
          let st := runStore emptyStore ops in
          In (k, r) (records (clearAllMessages st A))
          <-> In (k, r) (records st) /\ sessionId r <> A)
    /\ (forall ops : list StoreOp,
          let st := runStore emptyStore ops in
          getAllMessagesFromDB (clearAllMessages st A) B = getAllMessagesFromDB st B).
Proof.
  intros A B Hab. split; [|split].
  - intros pre post m now added r Hr Hid.
    set (st0 := runStore emptyStore pre) in *.
    assert (W0 : wfStore st0) by (apply wf_run, wf_empty).
    assert (W1 : wfStore (snd added)) by (apply wf_add; exact W0).
    assert (W2 : wfStore (runStore (snd added) post)) by (apply wf_run; exact W1).
    apply getAll_In in Hr as (k & Hin & Hs).
    destruct ((proj1 W2) k r Hin) as [Hk _].
    rewrite Hk in Hid. inversion Hid as [Ek]. clear Hid.
    destruct (run_records post _ _ _ Hin) as [H1|H1].
    + unfold added, addMessageToDB in H1, Ek. simpl in H1, Ek. subst k.
      apply in_app_or in H1 as [H1|[H1|[]]].
      * destruct ((proj1 W0) _ _ H1) as [_ Hlt]. lia.
      * inversion H1; subst. simpl in *. congruence.
    + unfold added, addMessageToDB in H1, Ek. simpl in H1, Ek. lia.
  - intros ops k r st. apply clear_In. apply wf_run, wf_empty.
  - intros ops st. apply clear_getAll_other; [apply wf_run, wf_empty | exact Hab].
Qed.

Lemma session_isolation_witness :
  "A" <> "B"
  /\ getAllMessagesFromDB (clearAllMessages
       (runStore emptyStore [OpAdd (mkMessageData USER (Some "x") None None) "A" 1;
                             OpAdd (mkMessageData USER (Some "y") None None) "B" 2]) "A") "B"
     = getAllMessagesFromDB
         (runStore emptyStore [OpAdd (mkMessageData USER (Some "x") None None) "A" 1;
                               OpAdd (mkMessageData USER (Some "y") None None) "B" 2]) "B".
Proof.
  assert (H : "A" <> "B") by discriminate.
  split; [exact H|].
  exact (proj2 (proj2 (session_isolation "A" "B" H))
           [OpAdd (mkMessageData USER (Some "x") None None) "A" 1;
            OpAdd (mkMessageData USER (Some "y") None None) "B" 2]).
Defined.

End DbFacts.

Module EditorFacts.
Import Canvas Editor.
Local Open Scope R_scope.

Lemma abs_cos_sin_pos (t : R) : 0 < Rabs (cos t) + Rabs (sin t).
Proof.
  pose proof (sin2_cos2 t) as H. unfold Rsqr in H.
  pose proof (Rabs_pos (cos t)). pose proof (Rabs_pos (sin t)).
  destruct (Req_dec (cos t) 0) as [Hc|Hc].
  - destruct (Req_dec (sin t) 0) as [Hs|Hs].
    + rewrite Hc, Hs in H. Lra.lra.
    + pose proof (Rabs_pos_lt _ Hs). Lra.lra.
  - pose proof (Rabs_pos_lt _ Hc). Lra.lra.
Qed.

Lemma rotated_extent_pos (w h a b : R) :
  0 < w -> 0 < h -> 0 <= a -> 0 <= b -> 0 < a + b -> 0 < w * a + h * b.
Proof.
  intros Hw Hh Ha Hb Hab.
  destruct (Rlt_or_le 0 a) as [Ha'|Ha'].
  - pose proof (Rmult_lt_0_compat w a Hw Ha'). pose proof (Rmult_le_pos h b ltac:(Lra.lra) Hb). Lra.lra.
  - assert (0 < b) by Lra.lra.
    pose proof (Rmult_lt_0_compat h b Hh H). pose proof (Rmult_le_pos w a ltac:(Lra.lra) Ha). Lra.lra.
Qed.

Lemma min_div_mul_le (m1 m2 e1 e2 : R) :
  0 < e1 -> Rmin (m1 / e1) (m2 / e2) * e1 <= m1.
Proof.
  intros He.
  apply Rle_trans with (m1 / e1 * e1).
  - apply Rmult_le_compat_r; [Lra.lra | apply Rmin_l].
  - right. field. Lra.lra.
Qed.

(** C4.  For a committed image of positive natural size and a positive
    uniform scale, [renderCanvas] computes the rotated extent
    [w s |cos t| + h s |sin t|] (and symmetrically), and the display
    scale times the rotated extent is at most the container size minus
    the 40 pixel margin, on both axes. *)
Theorem fit_to_container :
  forall (st : EditorState) (img : Image) (containerWidth containerHeight : R),
    committedImage st = Some img ->
    0 < uniformScale st ->
    (0 < naturalWidth img)%Z -> (0 < naturalHeight img)%Z ->
    let rad := rotation st * PI / 180 in
    let imgWidth := IZR (naturalWidth img) * uniformScale st in
    let imgHeight := IZR (naturalHeight img) * uniformScale st in
    exists l,
      renderLayout st containerWidth containerHeight = Some l
      /\ rotatedWidth l = imgWidth * Rabs (cos rad) + imgHeight * Rabs (sin rad)
      /\ rotatedHeight l = imgWidth * Rabs (sin rad) + imgHeight * Rabs (cos rad)
      /\ displayScale l * rotatedWidth l <= containerWidth - 40
      /\ displayScale l * rotatedHeight l <= containerHeight - 40.
Proof.
  intros st img cwid chei Himg Hs Hw Hh rad imgWidth imgHeight.
  apply IZR_lt in Hw, Hh.
  assert (Pw : 0 < imgWidth) by (apply Rmult_lt_0_compat; assumption).
  assert (Ph : 0 < imgHeight) by (apply Rmult_lt_0_compat; assumption).
  pose proof (abs_cos_sin_pos rad) as Hcs.
  pose proof (Rabs_pos (cos rad)). pose proof (Rabs_pos (sin rad)).
  assert (Rw : 0 < imgWidth * Rabs (cos rad) + imgHeight * Rabs (sin rad))
    by (apply rotated_extent_pos; assumption).
  assert (Rh : 0 < imgWidth * Rabs (sin rad) + imgHeight * Rabs (cos rad))
    by (apply rotated_extent_pos; Lra.lra).
  unfold renderLayout. rewrite Himg. fold rad. fold imgWidth imgHeight.
  destruct (Req_EM_T (imgWidth * Rabs (cos rad) + imgHeight * Rabs (sin rad)) 0); [Lra.lra|].
  destruct (Req_EM_T (imgWidth * Rabs (sin rad) + imgHeight * Rabs (cos rad)) 0); [Lra.lra|].
  eexists. split; [reflexivity|]. cbn [rotatedWidth rotatedHeight displayScale].
  split; [reflexivity|]. split; [reflexivity|].
  split; [apply min_div_mul_le; exact Rw|].
  rewrite Rmin_comm. apply min_div_mul_le. exact Rh.
Qed.

Definition sampleImage : Image := mkImage 4 3 (fun _ _ => transparentBlack).

Definition sampleState : EditorState :=
  mkEditor (Some sampleImage) 100 100 100 0 1 1 1 "none"%string false None 1 (0, 0).

Lemma fit_to_container_witness :
  committedImage sampleState = Some sampleImage /\ 0 < uniformScale sampleState
  /\ (0 < naturalWidth sampleImage)%Z /\ (0 < naturalHeight sampleImage)%Z
  /\ exists l, renderLayout sampleState 800 600 = Some l
               /\ displayScale l * rotatedWidth l <= 800 - 40.
Proof.
  assert (H1 : committedImage sampleState = Some sampleImage) by reflexivity.
  assert (H2 : 0 < uniformScale sampleState) by (simpl; Lra.lra).
  assert (H3 : (0 < naturalWidth sampleImage)%Z) by reflexivity.
  assert (H4 : (0 < naturalHeight sampleImage)%Z) by reflexivity.
  split; [exact H1|]. split; [exact H2|]. split; [exact H3|]. split; [exact H4|].
  destruct (fit_to_container sampleState sampleImage 800 600 H1 H2 H3 H4)
    as (l & Hl & _ & _ & Hx & _).
  exists l. split; [exact Hl | exact Hx].
Defined.

Lemma Rtrunc_IZR (n : Z) : (0 <= n)%Z -> Rtrunc (IZR n) = n.
Proof.
  intros Hn. unfold Rtrunc.
  destruct (Rle_dec 0 (IZR n)) as [_|N]; [|exfalso; apply N, IZR_le, Hn].
  unfold Int_part. rewrite <- (tech_up (IZR n) (n + 1)); [lia| |].
  - rewrite plus_IZR. Lra.lra.
  - rewrite plus_IZR. Lra.lra.
Qed.

Lemma toUnsignedLong_IZR (n : Z) : (0 <= n < 2 ^ 32)%Z -> toUnsignedLong (IZR n) = n.
Proof.
  intros Hn. unfold toUnsignedLong. rewrite Rtrunc_IZR by lia.
  apply Z.mod_small. exact Hn.
Qed.

Lemma Int_part_nonneg (v : R) : 0 <= v -> (0 <= Int_part v)%Z.
Proof.
  intros Hv. destruct (base_Int_part v) as [_ H].
  assert (H0 : IZR (Int_part v) > -1) by Lra.lra.
  apply lt_IZR in H0. lia.
Qed.

(** The bitmap size set from a non-negative length never exceeds it. *)
Lemma toUnsignedLong_le (v : R) : 0 <= v -> IZR (toUnsignedLong v) <= v.
Proof.
  intros Hv. unfold toUnsignedLong, Rtrunc.
  destruct (Rle_dec 0 v) as [_|N]; [|contradiction].
  pose proof (Int_part_nonneg v Hv) as P.
  apply Rle_trans with (IZR (Int_part v)).
  - apply IZR_le. apply Z.mod_le; lia.
  - apply base_Int_part.
Qed.

Lemma Q2R_nonneg (q : Q) : (0 <= q)%Q -> 0 <= Q2R q.
Proof.
  intros Hq. apply Qle_Rle in Hq. unfold Q2R at 1 in Hq. simpl in Hq. Lra.lra.
Qed.

Lemma nativeRotatedWidth_nonneg (st : EditorState) (img : Image) :
  (0 <= naturalWidth img)%Z -> (0 <= naturalHeight img)%Z -> 0 <= nativeRotatedWidth st img.
Proof.
  intros Hw Hh. unfold nativeRotatedWidth.
  apply IZR_le in Hw, Hh.
  pose proof (Rabs_pos (cos (rotation st * PI / 180))) as A.
  pose proof (Rabs_pos (sin (rotation st * PI / 180))) as B.
  pose proof (Rmult_le_pos _ _ Hw A). pose proof (Rmult_le_pos _ _ Hh B). Lra.lra.
Qed.

(** The rotated extent of an image of positive size is at least 1. *)
Lemma abs_cos_sin_ge1 (t : R) : 1 <= Rabs (cos t) + Rabs (sin t).
Proof.
  pose proof (sin2_cos2 t) as H. unfold Rsqr in H.
  assert (Ec : cos t * cos t = Rabs (cos t) * Rabs (cos t))
    by (rewrite <- Rabs_mult; symmetry; apply Rabs_pos_eq, Rle_0_sqr).
  assert (Es : sin t * sin t = Rabs (sin t) * Rabs (sin t))
    by (rewrite <- Rabs_mult; symmetry; apply Rabs_pos_eq, Rle_0_sqr).
  assert (Bc : Rabs (cos t) <= 1) by (apply Rabs_le, COS_bound).
  assert (Bs : Rabs (sin t) <= 1) by (apply Rabs_le, SIN_bound).
  pose proof (Rabs_pos (cos t)). pose proof (Rabs_pos (sin t)). Lra.nra.
Qed.

Lemma nativeRotated_ge1 (st : EditorState) (img : Image) :
  (1 <= naturalWidth img)%Z -> (1 <= naturalHeight img)%Z ->
  1 <= nativeRotatedWidth st img /\ 1 <= nativeRotatedHeight st img.
Proof.
  intros Hw Hh. apply IZR_le in Hw, Hh. unfold nativeRotatedWidth, nativeRotatedHeight.
  pose proof (abs_cos_sin_ge1 (rotation st * PI / 180)).
  pose proof (Rabs_pos (cos (rotation st * PI / 180))).
  pose proof (Rabs_pos (sin (rotation st * PI / 180))). split; Lra.nra.
Qed.

(** A length in [[1, 2^32)] gives a bitmap dimension other than 0. *)
Lemma toUnsignedLong_nonzero (v : R) : 1 <= v < IZR (2 ^ 32) -> toUnsignedLong v <> 0%Z.
Proof.
  intros [H1 H2]. unfold toUnsignedLong, Rtrunc.
  destruct (Rle_dec 0 v) as [_|N]; [|Lra.lra].
  destruct (base_Int_part v) as [B1 B2].
  assert (L : (0 < Int_part v)%Z) by (apply lt_IZR; Lra.lra).
  assert (U : (Int_part v < 2 ^ 32)%Z) by (apply lt_IZR; Lra.lra).
  rewrite Z.mod_small by lia. lia.
Qed.

Lemma hasPixels_cropSource (st : EditorState) (img : Image) :
  hasPixels (cropSourceCanvas st img)
  = negb (toUnsignedLong (nativeRotatedWidth st img) =? 0)%Z
    && negb (toUnsignedLong (nativeRotatedHeight st img) =? 0)%Z.
Proof. reflexivity. Qed.

Lemma hasPixels_crop (src : Image) (sx sy sWidth sHeight : R) :
  hasPixels (drawImage9 (setHeight (setWidth newCanvas sWidth) sHeight) src
               sx sy sWidth sHeight 0 0 sWidth sHeight)
  = negb (toUnsignedLong sWidth =? 0)%Z && negb (toUnsignedLong sHeight =? 0)%Z.
Proof. reflexivity. Qed.

(** With the neutral ['none'] filter, [`none brightness(100%) ...`] is not
    a CSS filter value and the assignment leaves the filter at ['none']. *)
Lemma composedFilter_none (b c s : R) : composedFilter "none" b c s = None.
Proof. reflexivity. Qed.

(** C3.  Baking with the neutral adjustments (100, 100, 100, ['none']) and
    the identity transform (rotation 0, uniform scale 1, no flips) yields
    a raster of the committed image's natural size whose pixels are the
    image's pixels (a committed image is a decoded image, of positive
    size; sizes below 2^32, the range of a canvas dimension). *)
Theorem bake_identity :
  forall (st : EditorState) (img : Image),
    committedImage st = Some img ->
    brightness st = 100 -> contrast st = 100 -> saturation st = 100 ->
    activeFilter st = "none"%string ->
    rotation st = 0 -> uniformScale st = 1 -> flipX st = 1 -> flipY st = 1 ->
    (0 < naturalWidth img < 2 ^ 32)%Z -> (0 < naturalHeight img < 2 ^ 32)%Z ->
    exists out,
      getBakedImageData st = Some out
      /\ naturalWidth out = naturalWidth img
      /\ naturalHeight out = naturalHeight img
      /\ forall px py, inBounds (naturalWidth img) (naturalHeight img) px py ->
                       pixel out px py = pixel img px py.
Proof.
  intros st img Himg Hb Hc Hs Haf Hr Hu Hfx Hfy HW HH.
  unfold getBakedImageData. rewrite Himg, Hr, Hu, Hfx, Hfy, Haf, composedFilter_none.
  replace (0 * PI / 180) with 0 by field.
  rewrite cos_0, sin_0.
  pose proof (IZR_le 0 _ (Z.lt_le_incl _ _ (proj1 HW))) as W0.
  pose proof (IZR_le 0 _ (Z.lt_le_incl _ _ (proj1 HH))) as H0.
  set (W := IZR (naturalWidth img)) in *. set (H := IZR (naturalHeight img)) in *.
  replace (Rabs (W * 1 * 1) + Rabs (H * 1 * 0)) with W
    by (rewrite !Rmult_1_r, Rmult_0_r, Rabs_R0, Rplus_0_r, Rabs_pos_eq; Lra.lra).
  replace (Rabs (W * 1 * 0) + Rabs (H * 1 * 1)) with H
    by (rewrite !Rmult_1_r, Rmult_0_r, Rabs_R0, Rplus_0_l, Rabs_pos_eq; Lra.lra).
  assert (Ew : toUnsignedLong W = naturalWidth img) by (apply toUnsignedLong_IZR; lia).
  assert (Eh : toUnsignedLong H = naturalHeight img) by (apply toUnsignedLong_IZR; lia).
  eexists. split.
  { cbv beta iota zeta.
    match goal with |- (if hasPixels ?c then _ else _) = _ =>
      replace (hasPixels c) with true
        by (symmetry; unfold hasPixels; cbn [cw ch drawImage5 drawImage9 scale rotate
              translate setFilter setHeight setWidth newCanvas];
            rewrite Ew, Eh; apply andb_true_iff; split; apply negb_true_iff, Z.eqb_neq; lia)
    end.
    reflexivity. }
  cbn [canvasImage naturalWidth naturalHeight drawImage5 drawImage9 cw ch setFilter
       setWidth setHeight newCanvas translate rotate scale].
  rewrite Ew, Eh. split; [reflexivity|]. split; [reflexivity|].
  intros px py Hin.
  unfold canvasImage, drawImage5, drawImage9, scale, rotate, translate, setHeight,
    setWidth, newCanvas.
  cbn [pixel cw ch ctm cfilter cpx]. rewrite Ew, Eh.
  destruct (inBounds_dec (naturalWidth img) (naturalHeight img) px py) as [_|N];
    [|contradiction].
  destruct Hin as [[Px Px'] [Py Py']]. fold W in Px'. fold H in Py'.
  rewrite cos_0, sin_0.
  match goal with |- context [applyM ?m (px, py)] =>
    assert (Eu : applyM m (px, py) = (px - W / 2, py - H / 2))
      by (unfold invertM, applyM, mulM, identityM; cbn [ma mb mc md me mf fst snd];
          f_equal; field);
    rewrite Eu end.
  cbn [fst snd applyFilter].
  replace (- (W * 1) / 2 + W * 1) with (W / 2) by field.
  replace (- (H * 1) / 2 + H * 1) with (H / 2) by field.
  replace (- (W * 1) / 2) with (- W / 2) by field.
  replace (- (H * 1) / 2) with (- H / 2) by field.
  destruct (inSpan_dec (- W / 2) (W * 1) (px - W / 2)) as [_|N];
    [|exfalso; apply N; unfold inSpan;
      replace (- W / 2 + W * 1) with (W / 2) by field;
      rewrite Rmin_left, Rmax_right by Lra.lra; Lra.lra].
  destruct (inSpan_dec (- H / 2) (H * 1) (py - H / 2)) as [_|N];
    [|exfalso; apply N; unfold inSpan;
      replace (- H / 2 + H * 1) with (H / 2) by field;
      rewrite Rmin_left, Rmax_right by Lra.lra; Lra.lra].
  fold W H. f_equal; field; Lra.lra.
Qed.

Lemma bake_identity_witness :
  (committedImage sampleState = Some sampleImage
   /\ brightness sampleState = 100 /\ contrast sampleState = 100
   /\ saturation sampleState = 100 /\ activeFilter sampleState = "none"%string
   /\ rotation sampleState = 0 /\ uniformScale sampleState = 1
   /\ flipX sampleState = 1 /\ flipY sampleState = 1
   /\ (0 < naturalWidth sampleImage < 2 ^ 32)%Z
   /\ (0 < naturalHeight sampleImage < 2 ^ 32)%Z)
  /\ exists out, getBakedImageData sampleState = Some out
                 /\ naturalWidth out = 4%Z /\ naturalHeight out = 3%Z.
Proof.
  assert (H1 : committedImage sampleState = Some sampleImage) by reflexivity.
  assert (H2 : (0 < naturalWidth sampleImage < 2 ^ 32)%Z) by (simpl; lia).
  assert (H3 : (0 < naturalHeight sampleImage < 2 ^ 32)%Z) by (simpl; lia).
  split; [repeat (split; [reflexivity|]); split; [exact H2 | exact H3]|].
  destruct (bake_identity sampleState sampleImage H1 eq_refl eq_refl eq_refl eq_refl
              eq_refl eq_refl eq_refl eq_refl H2 H3) as (out & Ho & Hw & Hh & _).
  exists out. split; [exact Ho|]. split; [exact Hw | exact Hh].
Defined.

(** C6 (amended).  Applying the crop scales the on-screen box by
    [ratio = nativeRotatedWidth / (displayCanvas.width / zoom)], the native
    rotated extent over the display extent.  When the scaled box is at
    least one pixel in each direction ([sWidth] and [sHeight] truncated to
    a canvas dimension are not 0), it cuts that region out of the rotated,
    flipped and adjusted raster drawn at natural size
    ([transformedCanvas]), makes the cut the committed image and resets
    every transform and adjustment field and the crop state.  When
    either truncates to 0, the data URL is ['data:,'], which never loads:
    nothing is replaced or reset.  (The [transformedCanvas] is drawn
    without [uniformScale] and without the [activeFilter] preset; a
    committed image is a decoded image, of positive size.) *)
Theorem crop_apply_postcondition :
  forall (st : EditorState) (img : Image) (box : Crop.CropBox) (displayCanvasWidth : Z),
    committedImage st = Some img -> cropBox st = Some box ->
    (1 <= naturalWidth img)%Z -> (1 <= naturalHeight img)%Z ->
    nativeRotatedWidth st img < IZR (2 ^ 32) -> nativeRotatedHeight st img < IZR (2 ^ 32) ->
    (0 < displayCanvasWidth)%Z -> 0 < zoom st ->
    (0 <= Crop.width box)%Q -> (0 <= Crop.height box)%Q ->
    let ratio := nativeRotatedWidth st img / (IZR displayCanvasWidth / zoom st) in
    let sx := Q2R (Crop.x box) * ratio in
    let sy := Q2R (Crop.y box) * ratio in
    let sWidth := Q2R (Crop.width box) * ratio in
    let sHeight := Q2R (Crop.height box) * ratio in
    let baked := canvasImage (cropSourceCanvas st img) in
    ((toUnsignedLong sWidth <> 0)%Z -> (toUnsignedLong sHeight <> 0)%Z ->
     exists st' out,
       handleApplyCrop st displayCanvasWidth = Some st'
       /\ committedImage st' = Some out
       /\ naturalWidth out = toUnsignedLong sWidth
       /\ naturalHeight out = toUnsignedLong sHeight
       /\ (forall X Y, inBounds (naturalWidth out) (naturalHeight out) X Y ->
                       pixel out X Y = pixel baked (sx + X) (sy + Y))
       /\ brightness st' = 100 /\ contrast st' = 100 /\ saturation st' = 100
       /\ rotation st' = 0 /\ uniformScale st' = 1 /\ flipX st' = 1 /\ flipY st' = 1
       /\ activeFilter st' = "none"%string /\ isCropping st' = false
       /\ cropBox st' = None)
    /\ ((toUnsignedLong sWidth = 0)%Z \/ (toUnsignedLong sHeight = 0)%Z ->
        handleApplyCrop st displayCanvasWidth = None).
Proof.
  intros st img box dW Himg Hbox Hw Hh Uw Uh HdW Hz Hbw Hbh ratio sx sy sWidth sHeight baked.
  destruct (nativeRotated_ge1 st img Hw Hh) as [Lw Lh].
  assert (Hsrc : hasPixels (cropSourceCanvas st img) = true).
  { rewrite hasPixels_cropSource.
    apply andb_true_iff; split; apply negb_true_iff, Z.eqb_neq, toUnsignedLong_nonzero;
      split; assumption. }
  assert (Pr : 0 <= ratio).
  { unfold ratio. apply Rmult_le_pos.
    - apply nativeRotatedWidth_nonneg; lia.
    - apply Rlt_le, Rinv_0_lt_compat. apply IZR_lt in HdW.
      unfold Rdiv. apply Rmult_lt_0_compat; [exact HdW | apply Rinv_0_lt_compat, Hz]. }
  assert (Pw : 0 <= sWidth) by (apply Rmult_le_pos; [apply Q2R_nonneg|]; assumption).
  assert (Ph : 0 <= sHeight) by (apply Rmult_le_pos; [apply Q2R_nonneg|]; assumption).
  unfold handleApplyCrop. rewrite Himg, Hbox. cbv beta iota zeta.
  rewrite Hsrc, hasPixels_crop. cbn [andb]. fold ratio sx sy sWidth sHeight baked.
  split.
  - intros Nw Nh. apply Z.eqb_neq in Nw, Nh. rewrite Nw, Nh. cbn [negb andb].
    do 2 eexists. split; [reflexivity|]. split; [reflexivity|].
    cbn [resetTransformsAndAdjustments setCommittedImage committedImage brightness contrast
         saturation rotation uniformScale flipX flipY activeFilter isCropping cropBox].
    split; [reflexivity|]. split; [reflexivity|].
    split; [|repeat split; reflexivity].
    intros X Y Hin.
    unfold canvasImage at 1, drawImage9, setHeight, setWidth, newCanvas.
    unfold canvasImage, drawImage9, setHeight, setWidth, newCanvas in Hin.
    cbn [pixel cw ch ctm cfilter cpx naturalWidth naturalHeight] in Hin |- *.
    destruct (inBounds_dec (toUnsignedLong sWidth) (toUnsignedLong sHeight) X Y) as [_|N];
      [|contradiction].
    destruct Hin as [[Px Px'] [Py Py']].
    pose proof (toUnsignedLong_le sWidth Pw). pose proof (toUnsignedLong_le sHeight Ph).
    replace (applyM (invertM identityM) (X, Y)) with (X, Y)
      by (unfold invertM, applyM, identityM; cbn [ma mb mc md me mf fst snd]; f_equal; field).
    cbn [fst snd applyFilter].
    replace (0 + sWidth) with sWidth by ring. replace (0 + sHeight) with sHeight by ring.
    destruct (inSpan_dec 0 sWidth X) as [_|N];
      [|exfalso; apply N; unfold inSpan; rewrite Rplus_0_l, Rmin_left, Rmax_right by Lra.lra;
        Lra.lra].
    destruct (inSpan_dec 0 sHeight Y) as [_|N];
      [|exfalso; apply N; unfold inSpan; rewrite Rplus_0_l, Rmin_left, Rmax_right by Lra.lra;
        Lra.lra].
    f_equal; field; Lra.lra.
  - intros [Z0|Z0]; rewrite Z0; cbn [Z.eqb negb andb]; [reflexivity|].
    destruct (toUnsignedLong sWidth =? 0)%Z; reflexivity.
Qed.

Definition cropState : EditorState :=
  mkEditor (Some sampleImage) 120 90 100 0 1 (-1) 1 "none"%string true
           (Some (Crop.mkBox 1 1 2 1)) 1 (0, 0).

Lemma cropState_native :
  nativeRotatedWidth cropState sampleImage = 4 /\ nativeRotatedHeight cropState sampleImage = 3.
Proof.
  unfold nativeRotatedWidth, nativeRotatedHeight. cbn [rotation cropState naturalWidth
    naturalHeight sampleImage].
  replace (0 * PI / 180) with 0 by field.
  rewrite cos_0, sin_0, Rabs_R1, Rabs_R0. split; ring.
Qed.

Lemma cropState_sizes :
  let ratio := nativeRotatedWidth cropState sampleImage / (IZR 4 / zoom cropState) in
  toUnsignedLong (Q2R (Crop.width (Crop.mkBox 1 1 2 1)) * ratio) = 2%Z
  /\ toUnsignedLong (Q2R (Crop.height (Crop.mkBox 1 1 2 1)) * ratio) = 1%Z.
Proof.
  intros ratio. unfold ratio. rewrite (proj1 cropState_native).
  cbn [zoom cropState Crop.width Crop.height]. unfold Q2R. cbn [Qnum Qden].
  split; [replace (IZR 2 * / IZR (Z.pos 1) * (4 / (IZR 4 / 1))) with (IZR 2) by field
         |replace (IZR 1 * / IZR (Z.pos 1) * (4 / (IZR 4 / 1))) with (IZR 1) by field];
    apply toUnsignedLong_IZR; lia.
Qed.

(** A crop box dragged to zero width: the state of [cropState] with the
    box collapsed onto its left edge. *)
Definition zeroCropState : EditorState :=
  mkEditor (Some sampleImage) 120 90 100 0 1 (-1) 1 "none"%string true
           (Some (Crop.mkBox 1 1 0 1)) 1 (0, 0).

(** C6: the postcondition fails for a crop box of width 0: applying it
    changes nothing, so the crop stays active and the brightness and the
    horizontal flip stay as they were. *)
Lemma crop_zero_width_counterexample :
  handleApplyCrop zeroCropState 4 = None
  /\ EditorControls.stepEditor zeroCropState (EditorControls.ApplyCrop 4) = zeroCropState
  /\ isCropping zeroCropState = true /\ brightness zeroCropState = 120
  /\ flipX zeroCropState = -1.
Proof.
  assert (E : handleApplyCrop zeroCropState 4 = None).
  { unfold handleApplyCrop. cbn [committedImage cropBox zeroCropState]. cbv beta iota zeta.
    rewrite hasPixels_crop.
    replace (Q2R (Crop.width (Crop.mkBox 1 1 0 1)) *
             (nativeRotatedWidth zeroCropState sampleImage / (IZR 4 / zoom zeroCropState)))
      with (IZR 0) by (cbn [Crop.width]; unfold Q2R; cbn [Qnum Qden]; ring).
    rewrite toUnsignedLong_IZR by lia. cbn [Z.eqb negb].
    rewrite andb_false_r. reflexivity. }
  split; [exact E|]. split; [cbn [EditorControls.stepEditor]; rewrite E; reflexivity|].
  repeat split; reflexivity.
Qed.

Lemma crop_apply_postcondition_witness :
  (committedImage cropState = Some sampleImage
   /\ cropBox cropState = Some (Crop.mkBox 1 1 2 1)
   /\ (1 <= naturalWidth sampleImage)%Z /\ (1 <= naturalHeight sampleImage)%Z
   /\ nativeRotatedWidth cropState sampleImage < IZR (2 ^ 32)
   /\ nativeRotatedHeight cropState sampleImage < IZR (2 ^ 32)
   /\ (0 < 4)%Z /\ 0 < zoom cropState
   /\ (0 <= Crop.width (Crop.mkBox 1 1 2 1))%Q /\ (0 <= Crop.height (Crop.mkBox 1 1 2 1))%Q)
  /\ exists st', handleApplyCrop cropState 4 = Some st' /\ isCropping st' = false
                 /\ brightness st' = 100.
Proof.
  assert (H1 : committedImage cropState = Some sampleImage) by reflexivity.
  assert (H2 : cropBox cropState = Some (Crop.mkBox 1 1 2 1)) by reflexivity.
  assert (H3 : (1 <= naturalWidth sampleImage)%Z) by (simpl; lia).
  assert (H4 : (1 <= naturalHeight sampleImage)%Z) by (simpl; lia).
  assert (H5 : nativeRotatedWidth cropState sampleImage < IZR (2 ^ 32))
    by (rewrite (proj1 cropState_native); apply IZR_lt; reflexivity).
  assert (H6 : nativeRotatedHeight cropState sampleImage < IZR (2 ^ 32))
    by (rewrite (proj2 cropState_native); apply IZR_lt; reflexivity).
  assert (H7 : (0 < 4)%Z) by lia.
  assert (H8 : 0 < zoom cropState) by (simpl; Lra.lra).
  assert (H9 : (0 <= Crop.width (Crop.mkBox 1 1 2 1))%Q) by (unfold Qle; simpl; lia).
  assert (H10 : (0 <= Crop.height (Crop.mkBox 1 1 2 1))%Q) by (unfold Qle; simpl; lia).
  split; [repeat split; assumption|].
  destruct cropState_sizes as [Sw Sh].
  destruct (crop_apply_postcondition cropState sampleImage (Crop.mkBox 1 1 2 1) 4
              H1 H2 H3 H4 H5 H6 H7 H8 H9 H10) as [A _].
  destruct (A ltac:(rewrite Sw; discriminate) ltac:(rewrite Sh; discriminate))
    as (st' & out & Hst & _ & _ & _ & _ & Hb & _ & _ & _ & _ & _ & _ & _ & Hc & _).
  exists st'. split; [exact Hst|]. split; [exact Hc | exact Hb].
Defined.

(** [cropState]'s crop is applied: its box is two pixels by one. *)
Lemma cropState_crop_applies : exists st', handleApplyCrop cropState 4 = Some st'.
Proof.
  destruct cropState_sizes as [Sw Sh]. destruct cropState_native as [Nw Nh].
  unfold handleApplyCrop.
  change (committedImage cropState) with (Some sampleImage).
  change (cropBox cropState) with (Some (Crop.mkBox 1 1 2 1)).
  cbv beta iota zeta.
  rewrite hasPixels_crop, hasPixels_cropSource, Sw, Sh, Nw, Nh.
  rewrite !toUnsignedLong_IZR by lia. cbn [Z.eqb negb andb]. eexists. reflexivity.
Qed.

End EditorFacts.

Module ViewerControlsFacts.
Import Viewer ViewerControls.
Local Open Scope Q_scope.

(** The zoom range of the viewer's buttons and wheel. *)
Definition scaleInRange (ui : ViewerUi) : Prop := 1 # 10 <= scale (view ui) <= 8.

Lemma js_min_le_r (a b : Q) : js_min a b <= b.
Proof.
  unfold js_min. destruct (Qle_bool a b) eqn:E; [apply Qle_bool_iff in E; exact E|apply Qle_refl].
Qed.

Lemma js_min_glb (a b c : Q) : c <= a -> c <= b -> c <= js_min a b.
Proof. unfold js_min. destruct (Qle_bool a b); auto. Qed.

Lemma js_max_ge_r (a b : Q) : b <= js_max a b.
Proof.
  unfold js_max. destruct (Qle_bool b a) eqn:E; [apply Qle_bool_iff in E; exact E|apply Qle_refl].
Qed.

Lemma js_max_lub (a b c : Q) : a <= c -> b <= c -> js_max a b <= c.
Proof. unfold js_max. destruct (Qle_bool b a); auto. Qed.

Lemma js_min_l (a b : Q) : a <= b -> js_min a b = a.
Proof. intros H. unfold js_min. apply Qle_bool_iff in H. rewrite H. reflexivity. Qed.

Lemma js_max_l (a b : Q) : b <= a -> js_max a b = a.
Proof. intros H. unfold js_max. apply Qle_bool_iff in H. rewrite H. reflexivity. Qed.

Lemma wheel_scale_range (st : ViewerState) (dy cx cy : Q) (r : option (Q * Q)) :
  1 # 10 <= scale st <= 8 -> 1 # 10 <= scale (handleWheel st dy cx cy r) <= 8.
Proof.
  intros Hs. unfold handleWheel. destruct r as [[l t]|]; [|exact Hs].
  cbn [Viewer.scale]. split.
  - apply js_min_glb; [apply js_max_ge_r|]. discriminate.
  - apply js_min_le_r.
Qed.

Lemma div54 (s : Q) : s / (5 # 4) = s * (4 # 5).
Proof. reflexivity. Qed.

Lemma Qle_bool_false (a b : Q) : Qle_bool a b = false -> b < a.
Proof. intros E. apply Qnot_le_lt. intros H. apply Qle_bool_iff in H. congruence. Qed.

Ltac jsq :=
  unfold js_min, js_max in *;
  repeat match goal with
  | |- context [Qle_bool ?a ?b] =>
      lazymatch a with context [Qle_bool _ _] => fail | _ => idtac end;
      lazymatch b with context [Qle_bool _ _] => fail | _ => idtac end;
      let E := fresh "E" in
      destruct (Qle_bool a b) eqn:E;
      [apply Qle_bool_iff in E | apply Qle_bool_false in E]
  end.

Lemma stepViewer_range (ui : ViewerUi) (ev : ViewerEvent) :
  scaleInRange ui -> scaleInRange (stepViewer ui ev).
Proof.
  unfold scaleInRange. intros [H1 H8].
  destruct ev as [o| | | |dy cx cy r|cx cy| | |cx cy]; cbn.
  - destruct o; cbn; [split; discriminate|split; assumption].
  - jsq; lra.
  - rewrite !div54. jsq; lra.
  - split; discriminate.
  - apply wheel_scale_range. split; assumption.
  - unfold handleMouseDown. destruct (Qle_bool (scale (view ui)) 1); cbn; split; assumption.
  - split; assumption.
  - split; assumption.
  - unfold handleMouseMove. destruct (isDragging ui); cbn; split; assumption.
Qed.

(** X1.  In the image viewer the zoom scale stays within [0.1, 8] under any sequence of zoom-button, reset, wheel, open and mouse events, starting from any scale in that range. *)
Theorem viewer_scale_bounded (ui : ViewerUi) (evs : list ViewerEvent) :
  scaleInRange ui -> scaleInRange (runViewer ui evs).
Proof.
  unfold runViewer. revert ui. induction evs as [|ev evs IH]; intros ui H; cbn; [exact H|].
  apply IH, stepViewer_range, H.
Qed.

Lemma viewer_scale_bounded_witness :
  scaleInRange initialViewerUi
  /\ scaleInRange (runViewer initialViewerUi
       [EvZoomOut; EvZoomOut; EvZoomOut; EvWheel 100 0 0 (Some (0, 0)); EvZoomIn]).
Proof.
  assert (H : scaleInRange initialViewerUi) by (split; discriminate).
  split; [exact H|]. apply viewer_scale_bounded. exact H.
Defined.

(** X2.  Zoom in followed by zoom out restores the viewer's scale when it is at most 6.4 (no clamping at 8), and zoom out followed by zoom in restores it when it is at least 0.125 (no clamping at 0.1). *)
Theorem viewer_zoom_round_trip (ui : ViewerUi) :
  (1 # 10 <= scale (view ui) -> scale (view ui) <= 32 # 5 ->
   scale (view (handleZoomOut (handleZoomIn ui))) == scale (view ui))
  /\ (1 # 8 <= scale (view ui) -> scale (view ui) <= 8 ->
      scale (view (handleZoomIn (handleZoomOut ui))) == scale (view ui)).
Proof.
  split; intros H1 H2; cbn; rewrite !div54; jsq; lra.
Qed.

Lemma viewer_zoom_round_trip_witness :
  let ui := mkViewerUi (mkViewer 2 (0, 0)) false (0, 0) in
  (1 # 10 <= scale (view ui) /\ scale (view ui) <= 32 # 5
   /\ scale (view (handleZoomOut (handleZoomIn ui))) == 2)
  /\ (1 # 8 <= scale (view ui) /\ scale (view ui) <= 8
      /\ scale (view (handleZoomIn (handleZoomOut ui))) == 2).
Proof.
  intros ui. destruct (viewer_zoom_round_trip ui) as [A B].
  assert (H1 : 1 # 10 <= scale (view ui)) by discriminate.
  assert (H2 : scale (view ui) <= 32 # 5) by discriminate.
  assert (H3 : 1 # 8 <= scale (view ui)) by discriminate.
  assert (H4 : scale (view ui) <= 8) by discriminate.
  split; (split; [assumption|split; [assumption|]]); [exact (A H1 H2)|exact (B H3 H4)].
Defined.

(** X3.  At a scale above 1, pressing at [(x0, y0)] and moving to [(x1, y1)] moves the image by exactly [(x1 - x0, y1 - y0)] and keeps the scale; at a scale of at most 1, with no drag in progress, the press and the move change nothing. *)
Theorem viewer_drag_follows_pointer (ui : ViewerUi) (x0 y0 x1 y1 : Q) :
  (1 < scale (view ui) ->
   let ui' := handleMouseMove (handleMouseDown ui x0 y0) x1 y1 in
   scale (view ui') = scale (view ui)
   /\ fst (position (view ui')) == fst (position (view ui)) + (x1 - x0)
   /\ snd (position (view ui')) == snd (position (view ui)) + (y1 - y0))
  /\ (scale (view ui) <= 1 -> isDragging ui = false ->
      handleMouseMove (handleMouseDown ui x0 y0) x1 y1 = ui).
Proof.
  split.
  - intros H. unfold handleMouseDown.
    destruct (Qle_bool (scale (view ui)) 1) eqn:E;
      [apply Qle_bool_iff in E; exfalso; apply (Qlt_not_le _ _ H E)|].
    cbn. split; [reflexivity|]. split; ring.
  - intros H D. unfold handleMouseDown.
    apply Qle_bool_iff in H. rewrite H. unfold handleMouseMove. rewrite D. reflexivity.
Qed.

Lemma viewer_drag_follows_pointer_witness :
  let ui := mkViewerUi (mkViewer 2 (5, 7)) false (0, 0) in
  (1 < scale (view ui)
   /\ fst (position (view (handleMouseMove (handleMouseDown ui 10 10) 13 6))) == 8)
  /\ (scale (view initialViewerUi) <= 1 /\ isDragging initialViewerUi = false
      /\ handleMouseMove (handleMouseDown initialViewerUi 10 10) 13 6 = initialViewerUi).
Proof.
  intros ui.
  destruct (viewer_drag_follows_pointer ui 10 10 13 6) as [A _].
  destruct (viewer_drag_follows_pointer initialViewerUi 10 10 13 6) as [_ B].
  assert (H1 : 1 < scale (view ui)) by reflexivity.
  assert (H2 : scale (view initialViewerUi) <= 1) by discriminate.
  split.
  - split; [exact H1|]. destruct (A H1) as (_ & Hx & _). rewrite Hx. reflexivity.
  - split; [exact H2|]. split; [reflexivity|]. exact (B H2 eq_refl).
Defined.

End ViewerControlsFacts.

Module EditorControlsFacts.
Import Canvas Editor EditorControls.
Local Open Scope R_scope.

(** The editor's view: zoom within the buttons' range, pan at the origin. *)
Definition viewInRange (st : EditorState) : Prop :=
  0.2 <= zoom st <= 8 /\ panOffset st = (0, 0).

Lemma handleApplyCrop_view (st st' : EditorState) (w : Z) :
  handleApplyCrop st w = Some st' -> zoom st' = zoom st /\ panOffset st' = panOffset st.
Proof.
  unfold handleApplyCrop. destruct (committedImage st), (cropBox st); try discriminate.
  cbv zeta. destruct (_ && _); [|discriminate].
  intros E. injection E as <-. split; reflexivity.
Qed.

Lemma stepEditor_view (st : EditorState) (op : EditorOp) :
  viewInRange st -> viewInRange (stepEditor st op).
Proof.
  unfold viewInRange. intros [[Z1 Z8] P].
  destruct op; cbn; try (split; [split|]; assumption).
  - split; [|exact P]. split.
    + apply Rmin_glb; Lra.lra.
    + apply Rmin_r.
  - split; [|exact P]. split.
    + apply Rmax_r.
    + apply Rmax_lub; Lra.lra.
  - split; [split; Lra.lra|reflexivity].
  - destruct (handleApplyCrop st displayCanvasWidth) as [st'|] eqn:E;
      [|split; [split|]; assumption].
    destruct (handleApplyCrop_view _ _ _ E) as [-> ->]. split; [split|]; assumption.
  - split; [split; Lra.lra|reflexivity].
Qed.

(** X4.  In the editor the zoom stays within [0.2, 8] and the pan offset stays at (0, 0) under every transform, adjustment, view and crop action, starting from a state where this holds. *)
Theorem editor_view_bounded (st : EditorState) (ops : list EditorOp) :
  viewInRange st -> viewInRange (runEditor st ops).
Proof.
  unfold runEditor. revert st. induction ops as [|op ops IH]; intros st H; cbn; [exact H|].
  apply IH, stepEditor_view, H.
Qed.

Lemma editor_view_bounded_witness :
  viewInRange initialEditor
  /\ viewInRange (runEditor initialEditor [ZoomIn; ZoomIn; ZoomOut; ResetView; ZoomOut]).
Proof.
  assert (H : viewInRange initialEditor) by (split; [cbn; split; Lra.lra|reflexivity]).
  split; [exact H|]. apply editor_view_bounded. exact H.
Defined.

Lemma IZR_pos_INR (p : positive) : IZR (Zpos p) = INR (Pos.to_nat p).
Proof. rewrite INR_IZR_INZ, positive_nat_Z. reflexivity. Qed.

Lemma cos_Zperiod (x : R) (m : Z) : cos (x + 2 * PI * IZR m) = cos x.
Proof.
  destruct m as [|p|p].
  - rewrite Rmult_0_r, Rplus_0_r. reflexivity.
  - rewrite (IZR_pos_INR p).
    replace (x + 2 * PI * INR (Pos.to_nat p)) with (x + 2 * INR (Pos.to_nat p) * PI) by ring.
    apply cos_period.
  - rewrite <- Pos2Z.opp_pos, opp_IZR, (IZR_pos_INR p).
    set (y := x + 2 * PI * - INR (Pos.to_nat p)).
    rewrite <- (cos_period y (Pos.to_nat p)). f_equal. unfold y. ring.
Qed.

Lemma sin_Zperiod (x : R) (m : Z) : sin (x + 2 * PI * IZR m) = sin x.
Proof.
  destruct m as [|p|p].
  - rewrite Rmult_0_r, Rplus_0_r. reflexivity.
  - rewrite (IZR_pos_INR p).
    replace (x + 2 * PI * INR (Pos.to_nat p)) with (x + 2 * INR (Pos.to_nat p) * PI) by ring.
    apply sin_period.
  - rewrite <- Pos2Z.opp_pos, opp_IZR, (IZR_pos_INR p).
    set (y := x + 2 * PI * - INR (Pos.to_nat p)).
    rewrite <- (sin_period y (Pos.to_nat p)). f_equal. unfold y. ring.
Qed.

(** The bake reads the rotation only through the cosine and sine of its
    angle. *)
Lemma bake_rotation_congr (st : EditorState) (r : R) :
  cos (r * PI / 180) = cos (rotation st * PI / 180) ->
  sin (r * PI / 180) = sin (rotation st * PI / 180) ->
  getBakedImageData (withTransform st r (uniformScale st) (flipX st) (flipY st))
  = getBakedImageData st.
Proof.
  intros Hc Hs. unfold getBakedImageData, rotate, withTransform.
  cbn [committedImage rotation uniformScale flipX flipY brightness contrast saturation
       activeFilter].
  destruct (committedImage st); [|reflexivity].
  cbv zeta. rewrite Hc, Hs. reflexivity.
Qed.

Lemma rotate4_shape (st : EditorState) :
  exists m : Z,
    rotateRight90 (rotateRight90 (rotateRight90 (rotateRight90 st)))
    = withTransform st (rotation st + 360 * IZR m) (uniformScale st) (flipX st) (flipY st).
Proof.
  unfold rotateRight90 at 1 2 3 4, js_rem. cbn [rotation uniformScale flipX flipY withTransform].
  set (a := rotation st).
  set (t1 := Rtrunc ((a + 90) / 360)).
  set (t2 := Rtrunc ((a + 90 - 360 * IZR t1 + 90) / 360)).
  set (t3 := Rtrunc ((a + 90 - 360 * IZR t1 + 90 - 360 * IZR t2 + 90) / 360)).
  set (t4 := Rtrunc ((a + 90 - 360 * IZR t1 + 90 - 360 * IZR t2 + 90 - 360 * IZR t3 + 90) / 360)).
  exists (1 - t1 - t2 - t3 - t4)%Z.
  unfold withTransform. f_equal. rewrite !minus_IZR. ring.
Qed.

(** X5.  Four presses of Rotate 90 give back the same baked image, even though the stored angle can change by a multiple of 360. *)
Theorem rotate90_four_times_same_bake (st : EditorState) :
  getBakedImageData (rotateRight90 (rotateRight90 (rotateRight90 (rotateRight90 st))))
  = getBakedImageData st.
Proof.
  destruct (rotate4_shape st) as [m ->].
  apply bake_rotation_congr.
  - replace ((rotation st + 360 * IZR m) * PI / 180)
      with (rotation st * PI / 180 + 2 * PI * IZR m) by field.
    apply cos_Zperiod.
  - replace ((rotation st + 360 * IZR m) * PI / 180)
      with (rotation st * PI / 180 + 2 * PI * IZR m) by field.
    apply sin_Zperiod.
Qed.

(** X6.  After Rotate 90 the stored angle lies strictly between -360 and 360 (JavaScript [%] keeps the sign of the dividend). *)
Theorem rotate90_angle_bound (st : EditorState) :
  -360 < rotation (rotateRight90 st) < 360.
Proof.
  unfold rotateRight90, js_rem, withTransform. cbn [rotation].
  set (a := rotation st + 90).
  unfold Rtrunc. destruct (Rle_dec 0 (a / 360)) as [P|P].
  - destruct (base_Int_part (a / 360)) as [B1 B2].
    assert (a = 360 * (a / 360)) by field. Lra.lra.
  - rewrite opp_IZR. destruct (base_Int_part (- (a / 360))) as [B1 B2].
    assert (a = 360 * (a / 360)) by field. Lra.lra.
Qed.

Ltac reqb_refl :=
  unfold Reqb;
  repeat match goal with
  | |- context [Req_EM_T ?a ?a] =>
      let N := fresh "N" in
      destruct (Req_EM_T a a) as [_|N]; [|exfalso; apply N; reflexivity]
  end.

Lemma hasUnappliedChanges_reset (s : EditorState) :
  hasUnappliedChanges (resetTransformsAndAdjustments s) = false.
Proof.
  unfold hasUnappliedChanges. cbn [resetTransformsAndAdjustments brightness contrast
    saturation rotation uniformScale flipX flipY activeFilter].
  reqb_refl. reflexivity.
Qed.

(** X7.  After a crop is applied the editor reports no unapplied changes, so Done without an AI result hands nothing to the parent: the cropped image is dropped when the modal closes. *)
Theorem applied_crop_dropped_by_done (st st' : EditorState) (w : Z)
    (imageData : option Gemini.ImageData) (prompt : string) :
  handleApplyCrop st w = Some st' ->
  hasUnappliedChanges st' = false /\ handleDone st' None imageData prompt = NoSave.
Proof.
  unfold handleApplyCrop. destruct (committedImage st), (cropBox st); try discriminate.
  cbv zeta. destruct (_ && _); [|discriminate].
  intros E. injection E as <-.
  rewrite hasUnappliedChanges_reset. split; [reflexivity|].
  unfold handleDone. rewrite hasUnappliedChanges_reset. reflexivity.
Qed.

Lemma applied_crop_dropped_by_done_witness :
  hasUnappliedChanges EditorFacts.cropState = true
  /\ exists st', handleApplyCrop EditorFacts.cropState 4 = Some st'
                 /\ hasUnappliedChanges st' = false
                 /\ handleDone st' None None "" = NoSave.
Proof.
  split.
  { unfold hasUnappliedChanges, Reqb. cbn [brightness EditorFacts.cropState].
    destruct (Req_EM_T 120 100) as [E|_]; [exfalso; Lra.lra | reflexivity]. }
  destruct EditorFacts.cropState_crop_applies as [st' E].
  exists st'. split; [exact E|].
  exact (applied_crop_dropped_by_done EditorFacts.cropState st' 4 None "" E).
Defined.

(** X8.  With the active filter ['none'] the baked image ignores brightness, contrast and saturation: it is the bake of the same state with all three at 100. *)
Theorem none_filter_drops_adjustments (st : EditorState) :
  activeFilter st = "none"%string ->
  getBakedImageData st = getBakedImageData (withAdjust st 100 100 100 "none").
Proof.
  intros Haf. unfold getBakedImageData, withAdjust.
  cbn [committedImage rotation uniformScale flipX flipY brightness contrast saturation
       activeFilter].
  rewrite Haf, !EditorFacts.composedFilter_none. reflexivity.
Qed.

Definition adjustedState : EditorState :=
  mkEditor (Some EditorFacts.sampleImage) 150 60 200 0 1 1 1 "none" false None 1 (0, 0).

Lemma none_filter_drops_adjustments_witness :
  activeFilter adjustedState = "none"%string
  /\ getBakedImageData adjustedState
     = getBakedImageData (withAdjust adjustedState 100 100 100 "none").
Proof.
  split; [reflexivity|]. apply none_filter_drops_adjustments. reflexivity.
Defined.

(** X9.  Starting a crop on a canvas of size [W x H] opens a box of 80% of each side with equal margins on both sides, inside the canvas. *)
Theorem start_crop_box_centred (st : EditorState) (W H : Z) :
  (0 <= W)%Z -> (0 <= H)%Z ->
  isCropping (handleStartCrop st W H) = true
  /\ exists b, cropBox (handleStartCrop st W H) = Some b
     /\ (Crop.width b == (4 # 5) * inject_Z W)%Q
     /\ (Crop.height b == (4 # 5) * inject_Z H)%Q
     /\ (0 <= Crop.x b)%Q /\ (0 <= Crop.y b)%Q
     /\ (inject_Z W - (Crop.x b + Crop.width b) == Crop.x b)%Q
     /\ (inject_Z H - (Crop.y b + Crop.height b) == Crop.y b)%Q.
Proof.
  intros HW HH. rewrite Zle_Qle in HW, HH.
  split; [reflexivity|]. eexists. split; [reflexivity|].
  unfold startCropBox. cbn [Crop.x Crop.y Crop.width Crop.height].
  unfold Qdiv. change (/ 2)%Q with (1 # 2)%Q.
  change (inject_Z 0) with 0%Q in HW, HH. repeat split; lra.
Qed.

Lemma start_crop_box_centred_witness :
  ((0 <= 640)%Z /\ (0 <= 480)%Z)
  /\ exists b, cropBox (handleStartCrop initialEditor 640 480) = Some b
               /\ (Crop.x b == 64)%Q /\ (Crop.width b == 512)%Q.
Proof.
  split; [split; lia|].
  destruct (start_crop_box_centred initialEditor 640 480) as [_ [b (Hb & Hw & _ & _ & _ & Hx & _)]];
    [lia|lia|].
  exists b. split; [exact Hb|].
  change (inject_Z 640) with (640 # 1)%Q in Hw, Hx. split; lra.
Defined.

Lemma invert_identity (p : R * R) : applyM (invertM identityM) p = p.
Proof.
  destruct p as [x y]. unfold invertM, applyM, identityM. cbn [ma mb mc md me mf fst snd].
  f_equal; field.
Qed.

Lemma inSpan_pos (a len u : R) : 0 <= len -> (inSpan a len u <-> a <= u < a + len).
Proof.
  intros H. unfold inSpan. rewrite Rmin_left, Rmax_right by Lra.lra. tauto.
Qed.

(** X10.  The expand step draws the baked image at its natural size on a canvas of 1.5 times its size (truncated to whole pixels), offset by a quarter of its size: a point inside the offset image shows the image's point shifted back, every other point is transparent. *)
Theorem expand_canvas_centres_image (b : Image) (px py : R) :
  (0 <= naturalWidth b)%Z -> (0 <= naturalHeight b)%Z ->
  let bw := IZR (naturalWidth b) in
  let bh := IZR (naturalHeight b) in
  cw (expandCanvas b) = toUnsignedLong (bw * 1.5)
  /\ ch (expandCanvas b) = toUnsignedLong (bh * 1.5)
  /\ (bw / 4 <= px < bw / 4 + bw -> bh / 4 <= py < bh / 4 + bh ->
      cpx (expandCanvas b) px py = pixel b (px - bw / 4) (py - bh / 4))
  /\ (~ (bw / 4 <= px < bw / 4 + bw /\ bh / 4 <= py < bh / 4 + bh) ->
      cpx (expandCanvas b) px py = transparentBlack).
Proof.
  intros HW HH bw bh.
  apply IZR_le in HW, HH. fold bw in HW. fold bh in HH.
  unfold expandCanvas, drawImage3, drawImage5, drawImage9, setHeight, setWidth, newCanvas.
  fold bw bh. cbn [cw ch ctm cfilter cpx].
  rewrite invert_identity. cbn [fst snd applyFilter].
  replace ((bw * 1.5 - bw) / 2) with (bw / 4) by Lra.lra.
  replace ((bh * 1.5 - bh) / 2) with (bh / 4) by Lra.lra.
  split; [reflexivity|]. split; [reflexivity|]. split.
  - intros Hx Hy.
    destruct (inSpan_dec (bw / 4) bw px) as [_|N];
      [|exfalso; apply N, inSpan_pos; assumption].
    destruct (inSpan_dec (bh / 4) bh py) as [_|N];
      [|exfalso; apply N, inSpan_pos; assumption].
    f_equal; field; Lra.lra.
  - intros Hn.
    destruct (inSpan_dec (bw / 4) bw px) as [Ix|]; [|reflexivity].
    destruct (inSpan_dec (bh / 4) bh py) as [Iy|]; [|reflexivity].
    exfalso. apply Hn. apply inSpan_pos in Ix, Iy; [|assumption|assumption]. tauto.
Qed.

Definition gradientImage : Image := mkImage 4 3 (fun x y => mkColor x y 0 1).

Lemma expand_canvas_centres_image_witness :
  ((0 <= naturalWidth gradientImage)%Z /\ (0 <= naturalHeight gradientImage)%Z)
  /\ cpx (expandCanvas gradientImage) 2 1.5 = mkColor 1 0.75 0 1
  /\ cpx (expandCanvas gradientImage) 0.5 1.5 = transparentBlack.
Proof.
  assert (H1 : (0 <= naturalWidth gradientImage)%Z) by (cbn; lia).
  assert (H2 : (0 <= naturalHeight gradientImage)%Z) by (cbn; lia).
  split; [split; assumption|].
  destruct (expand_canvas_centres_image gradientImage 2 1.5 H1 H2) as (_ & _ & A & _).
  destruct (expand_canvas_centres_image gradientImage 0.5 1.5 H1 H2) as (_ & _ & _ & B).
  cbn [naturalWidth naturalHeight gradientImage] in A, B.
  split.
  - rewrite A by (split; Lra.lra). cbn [pixel gradientImage]. f_equal; Lra.lra.
  - apply B. intros [[Hx _] _]. Lra.lra.
Defined.

End EditorControlsFacts.

Module RequestFacts.
Import Gemini.
Local Open Scope string_scope.

Lemma dropWs_suffix (l : list ascii) : exists w, l = (w ++ dropWs l)%list.
Proof.
  induction l as [|c l [w IH]]; [exists []; reflexivity|].
  cbn. destruct (is_ws c).
  - exists (c :: w). cbn. rewrite <- IH. reflexivity.
  - exists []. reflexivity.
Qed.

Lemma dropWs_length (l : list ascii) : (List.length (dropWs l) <= List.length l)%nat.
Proof.
  induction l as [|c l IH]; cbn; [lia|]. destruct (is_ws c); cbn; lia.
Qed.

Lemma dropWs_idem (l : list ascii) : dropWs (dropWs l) = dropWs l.
Proof.
  induction l as [|c l IH]; [reflexivity|]. cbn.
  destruct (is_ws c) eqn:E; [exact IH|]. cbn. rewrite E. reflexivity.
Qed.

(** A list without leading white space keeps that property once its
    trailing white space is dropped. *)
Lemma dropWs_trailing (u : list ascii) :
  dropWs u = u -> dropWs (rev (dropWs (rev u))) = rev (dropWs (rev u)).
Proof.
  intros Hu. destruct (dropWs_suffix (rev u)) as [w Hw].
  assert (Eu : u = (rev (dropWs (rev u)) ++ rev w)%list)
    by (rewrite <- rev_app_distr, <- Hw, rev_involutive; reflexivity).
  destruct (rev (dropWs (rev u))) as [|c r] eqn:Ez; [reflexivity|].
  cbn. destruct (is_ws c) eqn:Ec; [|reflexivity].
  exfalso. rewrite Eu in Hu. cbn in Hu. rewrite Ec in Hu.
  pose proof (dropWs_length (r ++ rev w)%list) as L.
  apply (f_equal (@List.length ascii)) in Hu. cbn in Hu. lia.
Qed.

Lemma trim_idem (s : string) : trim (trim s) = trim s.
Proof.
  unfold trim. rewrite list_ascii_of_string_of_list_ascii.
  set (u := dropWs (list_ascii_of_string s)).
  assert (Hu : dropWs u = u) by apply dropWs_idem.
  rewrite (dropWs_trailing u Hu), rev_involutive, dropWs_idem. reflexivity.
Qed.

(** X11.  The generate request depends on the negative prompt only through its trimmed text; a negative prompt of only white space gives the same request as an empty one. *)
Theorem negative_prompt_read_trimmed (prompt aspectRatio negativePrompt : string)
    (style : GenerationStyle) (hist : list Message) :
  buildGenerateRequest prompt aspectRatio style negativePrompt hist
  = buildGenerateRequest prompt aspectRatio style (trim negativePrompt) hist
  /\ (trim negativePrompt = "" ->
      buildGenerateRequest prompt aspectRatio style negativePrompt hist
      = buildGenerateRequest prompt aspectRatio style "" hist).
Proof.
  assert (E : buildGenerateRequest prompt aspectRatio style negativePrompt hist
              = buildGenerateRequest prompt aspectRatio style (trim negativePrompt) hist)
    by (unfold buildGenerateRequest; rewrite trim_idem; reflexivity).
  split; [exact E|]. intros H. rewrite E, H. reflexivity.
Qed.

Definition spaces : string := String (ascii_of_nat 32) (String (ascii_of_nat 9) "").

Lemma negative_prompt_read_trimmed_witness :
  trim spaces = ""
  /\ buildGenerateRequest "a cat" "1:1" Default spaces []
     = buildGenerateRequest "a cat" "1:1" Default "" [].
Proof.
  assert (H : trim spaces = "") by reflexivity.
  split; [exact H|].
  destruct (negative_prompt_read_trimmed "a cat" "1:1" spaces Default []) as [_ B].
  exact (B H).
Defined.

End RequestFacts.

Module AppFlowFacts.
Import Gemini Conversation AppFlow.
Local Open Scope string_scope.

(** X12.  For a non-empty prompt, the request built when a message is sent ends with the prompt as a user turn of the history, followed by the final user turn, which contains the prompt again. *)
Theorem send_message_repeats_prompt (sid : string) (h : Hook) (prompt aspectRatio : string)
    (style : GenerationStyle) (negativePrompt : string) (now : nat) :
  prompt <> "" ->
  exists pre final,
    snd (sendMessageRequest sid h prompt aspectRatio style negativePrompt now)
    = GenerateRequest (pre ++ [mkReqContent "user" [mkPart None (Some prompt)];
                               mkReqContent "user" [mkPart None (Some final)]])
    /\ GeminiFacts.Substr prompt final.
Proof.
  intros Hp. unfold sendMessageRequest, addMessageOk.
  destruct (Db.addMessageToDB (store h) _ sid (Z.of_nat now)) as [k st'].
  cbn [snd]. unfold buildGenerateRequest.
  rewrite map_app, filter_app, map_app, <- app_assoc.
  match goal with |- context [Some (if ?c then ?a else ?b)] =>
    remember (if c then a else b) as p2 eqn:Ep end.
  eexists. exists p2. split.
  - f_equal. f_equal. cbn.
    destruct prompt as [|c p]; [contradiction|]. reflexivity.
  - set (p0 := match style with Default => prompt | _ => stylePrefix style ++ " " ++ prompt end).
    assert (H0 : GeminiFacts.Substr prompt p0).
    { unfold p0. destruct style; cbv beta iota;
        [exists "", ""; cbn; rewrite GeminiFacts.sappend_nil_r; reflexivity|..];
        match goal with |- GeminiFacts.Substr _ (?a ++ " " ++ _) =>
          exists (a ++ " "), ""; rewrite GeminiFacts.sappend_nil_r,
            GeminiFacts.sappend_assoc; reflexivity end. }
    assert (H1 : GeminiFacts.Substr prompt
                   (p0 ++ nl ++ nl ++ "- Desired aspect ratio: " ++ aspectRatio))
      by (apply GeminiFacts.Substr_app_r; exact H0).
    rewrite Ep. destruct (truthy (Some (trim negativePrompt))).
    + apply GeminiFacts.Substr_app_r. exact H1.
    + exact H1.
Qed.

Lemma send_message_repeats_prompt_witness :
  "a cat" <> ""
  /\ exists pre final,
       snd (sendMessageRequest "A" (mountHook Db.emptyStore) "a cat" "1:1" Anime "" 5)
       = GenerateRequest (pre ++ [mkReqContent "user" [mkPart None (Some "a cat")];
                                  mkReqContent "user" [mkPart None (Some final)]])
       /\ GeminiFacts.Substr "a cat" final.
Proof.
  assert (H : "a cat" <> "") by discriminate.
  split; [exact H|].
  exact (send_message_repeats_prompt "A" (mountHook Db.emptyStore) "a cat" "1:1" Anime "" 5 H).
Defined.

End AppFlowFacts.

Module StoreFacts.
Import Db DbFacts.

Definition tsLe (a b : StoredMessage) : Prop := (timestamp a <= timestamp b)%Z.

(** The records of session [sid], in primary-key order. *)
Definition sessionRecords (st : Store) (sid : string) : list StoredMessage :=
  map snd (filter (fun kr => String.eqb (sessionId (snd kr)) sid) (records st)).

Lemma insert_perm (m : StoredMessage) (l : list StoredMessage) :
  Permutation (insertByTimestamp m l) (m :: l).
Proof.
  induction l as [|a l IH]; cbn; [reflexivity|].
  destruct (timestamp m <? timestamp a)%Z; [reflexivity|].
  rewrite IH. apply perm_swap.
Qed.

Lemma insert_ss (m : StoredMessage) (l : list StoredMessage) :
  StronglySorted tsLe l -> StronglySorted tsLe (insertByTimestamp m l).
Proof.
  induction l as [|a l IH]; cbn; intros H.
  - constructor; constructor.
  - inversion H as [|? ? Hl Ha]; subst.
    destruct (timestamp m <? timestamp a)%Z eqn:E.
    + apply Z.ltb_lt in E. constructor; [exact H|]. constructor; [unfold tsLe; lia|].
      eapply Forall_impl; [|exact Ha]. unfold tsLe. intros b Hb. lia.
    + apply Z.ltb_ge in E. constructor; [apply IH, Hl|].
      apply Forall_forall. intros b Hb. apply insert_In in Hb as [->|Hb].
      * unfold tsLe. lia.
      * rewrite Forall_forall in Ha. apply Ha, Hb.
Qed.

Lemma sort_ss_perm (l : list StoredMessage) :
  StronglySorted tsLe (sortByTimestamp l) /\ Permutation (sortByTimestamp l) l.
Proof.
  unfold sortByTimestamp.
  assert (G : forall acc, StronglySorted tsLe acc ->
              StronglySorted tsLe (fold_left (fun acc m => insertByTimestamp m acc) l acc)
              /\ Permutation (fold_left (fun acc m => insertByTimestamp m acc) l acc) (l ++ acc)).
  { induction l as [|a l IH]; intros acc Hacc; cbn; [split; [exact Hacc|reflexivity]|].
    destruct (IH _ (insert_ss a acc Hacc)) as [S P]. split; [exact S|].
    rewrite P, insert_perm. apply Permutation_sym, Permutation_middle. }
  destruct (G [] (SSorted_nil _)) as [S P]. rewrite app_nil_r in P. split; assumption.
Qed.

(** X13.  [getAllMessagesFromDB] returns exactly the session's records (a permutation of them) in non-decreasing timestamp order. *)
Theorem getAll_sorted_permutation (st : Store) (sid : string) :
  Sorted tsLe (getAllMessagesFromDB st sid)
  /\ Permutation (getAllMessagesFromDB st sid) (sessionRecords st sid).
Proof.
  destruct (sort_ss_perm (sessionRecords st sid)) as [S P].
  split; [apply StronglySorted_Sorted, S|exact P].
Qed.

Lemma insert_last (m : StoredMessage) (l : list StoredMessage) :
  (forall x, In x l -> (timestamp x <= timestamp m)%Z) ->
  insertByTimestamp m l = l ++ [m].
Proof.
  induction l as [|a l IH]; cbn; intros H; [reflexivity|].
  destruct (timestamp m <? timestamp a)%Z eqn:E.
  - apply Z.ltb_lt in E. specialize (H a (or_introl eq_refl)). lia.
  - rewrite IH; [reflexivity|]. intros x Hx. apply H. right. exact Hx.
Qed.

(** The record [addMessageToDB] stores. *)
Definition storedOf (st : Store) (message : MessageData) (sid : string) (now : Z)
    : StoredMessage :=
  mkStored (Some (currentKey st)) sid (mdRole message) (mdText message)
           (mdImageUrl message) (mdImageMimeType message) now.

Lemma getAll_add (st : Store) (message : MessageData) (sid : string) (now : Z) :
  (forall k r, In (k, r) (records st) -> sessionId r = sid -> (timestamp r <= now)%Z) ->
  getAllMessagesFromDB (snd (addMessageToDB st message sid now)) sid
  = getAllMessagesFromDB st sid ++ [storedOf st message sid now].
Proof.
  intros Hts. unfold getAllMessagesFromDB at 1. cbn [addMessageToDB snd records].
  rewrite filter_app, map_app. cbn [filter snd sessionId].
  rewrite String.eqb_refl. cbn [map snd].
  unfold sortByTimestamp at 1. rewrite fold_left_app. cbn [fold_left].
  fold (sortByTimestamp (map snd (filter (fun kr => String.eqb (sessionId (snd kr)) sid)
                                        (records st)))).
  apply insert_last. intros x Hx.
  change (sortByTimestamp _) with (getAllMessagesFromDB st sid) in Hx.
  apply getAll_In in Hx as (k & Hin & Hs). exact (Hts k x Hin Hs).
Qed.

(** X14.  When no record of the session is newer than [now], adding a message at [now] and reading the session back gives the earlier result followed by the new record. *)
Theorem add_then_getAll_appends (st : Store) (message : MessageData) (sid : string) (now : Z) :
  (forall k r, In (k, r) (records st) -> sessionId r = sid -> (timestamp r <= now)%Z) ->
  getAllMessagesFromDB (snd (addMessageToDB st message sid now)) sid
  = getAllMessagesFromDB st sid ++ [storedOf st message sid now].
Proof. apply getAll_add. Qed.

Definition helloData : MessageData := mkMessageData USER (Some "hi"%string) None None.

Definition oneRecordStore : Store := snd (addMessageToDB emptyStore helloData "A" 5).

Lemma add_then_getAll_appends_witness :
  (forall k r, In (k, r) (records oneRecordStore) -> sessionId r = "A"%string ->
               (timestamp r <= 7)%Z)
  /\ List.length (getAllMessagesFromDB (snd (addMessageToDB oneRecordStore helloData "A" 7)) "A")
     = 2%nat.
Proof.
  assert (H : forall k r, In (k, r) (records oneRecordStore) -> sessionId r = "A"%string ->
                          (timestamp r <= 7)%Z).
  { intros k r [E|[]] _. injection E as _ <-. cbn. lia. }
  split; [exact H|].
  rewrite (add_then_getAll_appends oneRecordStore helloData "A" 7 H). reflexivity.
Defined.

Lemma find_app {A} (f : A -> bool) (l1 l2 : list A) :
  find f (l1 ++ l2) = match find f l1 with Some x => Some x | None => find f l2 end.
Proof. induction l1 as [|a l1 IH]; cbn; [reflexivity|]. destruct (f a); [reflexivity|exact IH]. Qed.

Lemma find_key_absent (l : list (nat * StoredMessage)) (k : nat) :
  (forall k' r, In (k', r) l -> k' <> k) ->
  find (fun kr => Nat.eqb (fst kr) k) l = None.
Proof.
  induction l as [|[k' r] l IH]; cbn; intros H; [reflexivity|].
  destruct (Nat.eqb k' k) eqn:E.
  - apply Nat.eqb_eq in E. exfalso. exact (H k' r (or_introl eq_refl) E).
  - apply IH. intros k'' r' Hin. exact (H k'' r' (or_intror Hin)).
Qed.

(** X15.  In a well-formed store, [addMessageToDB] resolves to the key generator's current value, the record is then found under that key, and every other key looks up as before. *)
Theorem add_lookup_round_trip (st : Store) (message : MessageData) (sid : string) (now : Z) :
  wfStore st ->
  fst (addMessageToDB st message sid now) = currentKey st
  /\ lookup (snd (addMessageToDB st message sid now)) (currentKey st)
     = Some (storedOf st message sid now)
  /\ forall k, k <> currentKey st ->
       lookup (snd (addMessageToDB st message sid now)) k = lookup st k.
Proof.
  intros [Hk _]. split; [reflexivity|]. unfold lookup. cbn [addMessageToDB snd records].
  split.
  - rewrite find_app, find_key_absent.
    + cbn. rewrite Nat.eqb_refl. reflexivity.
    + intros k' r Hin. destruct (Hk k' r Hin) as [_ L]. lia.
  - intros k Hne. rewrite find_app.
    destruct (find (fun kr => Nat.eqb (fst kr) k) (records st)) as [[k' r]|];
      [reflexivity|].
    cbn. rewrite Nat.eqb_sym. apply Nat.eqb_neq in Hne. rewrite Hne. reflexivity.
Qed.

Lemma add_lookup_round_trip_witness :
  wfStore oneRecordStore
  /\ lookup (snd (addMessageToDB oneRecordStore helloData "B" 9)) 2
     = Some (mkStored (Some 2%nat) "B" USER (Some "hi"%string) None None 9)
  /\ lookup (snd (addMessageToDB oneRecordStore helloData "B" 9)) 1 = lookup oneRecordStore 1.
Proof.
  assert (W : wfStore oneRecordStore) by (apply (wf_step emptyStore (OpAdd helloData "A" 5)), wf_empty).
  destruct (add_lookup_round_trip oneRecordStore helloData "B" 9 W) as (_ & A & B).
  split; [exact W|]. split; [exact A|]. apply B. discriminate.
Defined.

(** X16.  After [deleteMessageFromDB k] nothing is found under [k], and every other key looks up as before. *)
Theorem delete_lookup (st : Store) (k : nat) :
  lookup (deleteMessageFromDB st k) k = None
  /\ forall k', k' <> k -> lookup (deleteMessageFromDB st k) k' = lookup st k'.
Proof.
  unfold lookup, deleteMessageFromDB, storeDelete. cbn [records]. split.
  - rewrite find_key_absent; [reflexivity|].
    intros k' r Hin. apply filter_In in Hin as [_ Hn]. cbn in Hn.
    apply negb_true_iff, Nat.eqb_neq in Hn. exact Hn.
  - intros k' Hne. induction (records st) as [|[k'' r] l IH]; cbn; [reflexivity|].
    destruct (Nat.eqb k'' k) eqn:E; cbn.
    + apply Nat.eqb_eq in E. subst k''. apply Nat.eqb_neq in Hne.
      rewrite Nat.eqb_sym, Hne. exact IH.
    + destruct (Nat.eqb k'' k'); [reflexivity|exact IH].
Qed.

Lemma run_currentKey (st : Store) (ops : list StoreOp) :
  (currentKey st <= currentKey (runStore st ops))%nat.
Proof.
  unfold runStore. revert st. induction ops as [|op ops IH]; intros st; cbn; [lia|].
  pose proof (step_currentKey st op). specialize (IH (stepStore st op)). lia.
Qed.

(** X17.  A key returned by [addMessageToDB] is never returned again by a later add, whatever deletions or clears happen in between. *)
Theorem keys_never_reused (st : Store) (m m' : MessageData) (s s' : string) (n n' : Z)
    (ops : list StoreOp) :
  (fst (addMessageToDB st m s n)
   < fst (addMessageToDB (runStore (snd (addMessageToDB st m s n)) ops) m' s' n'))%nat.
Proof.
  pose proof (run_currentKey (snd (addMessageToDB st m s n)) ops) as H.
  cbn [addMessageToDB fst snd currentKey] in *. lia.
Qed.

Lemma insert_front (x : StoredMessage) (l : list StoredMessage) :
  (forall b, In b l -> (timestamp x < timestamp b)%Z) -> insertByTimestamp x l = x :: l.
Proof.
  destruct l as [|a l]; cbn; intros H; [reflexivity|].
  specialize (H a (or_introl eq_refl)). apply Z.ltb_lt in H. rewrite H. reflexivity.
Qed.

Lemma filter_insert_drop (f : StoredMessage -> bool) (x : StoredMessage) (l : list StoredMessage) :
  f x = false -> filter f (insertByTimestamp x l) = filter f l.
Proof.
  intros Hx. induction l as [|a l IH]; cbn; [rewrite Hx; reflexivity|].
  destruct (timestamp x <? timestamp a)%Z; cbn; [rewrite Hx; reflexivity|].
  rewrite IH. reflexivity.
Qed.

Lemma insert_filter (f : StoredMessage -> bool) (x : StoredMessage) (l : list StoredMessage) :
  f x = true -> StronglySorted tsLe l ->
  insertByTimestamp x (filter f l) = filter f (insertByTimestamp x l).
Proof.
  intros Hx. induction l as [|a l IH]; intros S; cbn; [rewrite Hx; reflexivity|].
  inversion S as [|? ? Sl Fa]; subst.
  destruct (timestamp x <? timestamp a)%Z eqn:E.
  - cbn. rewrite Hx. destruct (f a) eqn:Fa'.
    + cbn. rewrite E. reflexivity.
    + apply insert_front. intros b Hb. apply filter_In in Hb as [Hb _].
      rewrite Forall_forall in Fa. specialize (Fa b Hb). unfold tsLe in Fa.
      apply Z.ltb_lt in E. lia.
  - cbn. destruct (f a).
    + cbn. rewrite E. rewrite IH by exact Sl. reflexivity.
    + apply IH, Sl.
Qed.

Lemma sort_filter (f : StoredMessage -> bool) (l : list StoredMessage) :
  sortByTimestamp (filter f l) = filter f (sortByTimestamp l).
Proof.
  unfold sortByTimestamp.
  assert (G : forall acc, StronglySorted tsLe acc ->
     fold_left (fun acc m => insertByTimestamp m acc) (filter f l) (filter f acc)
     = filter f (fold_left (fun acc m => insertByTimestamp m acc) l acc)).
  { induction l as [|a l IH]; intros acc S; cbn; [reflexivity|].
    destruct (f a) eqn:Fa; cbn.
    - rewrite insert_filter by assumption. apply IH, insert_ss, S.
    - rewrite <- (filter_insert_drop f a acc Fa). apply IH, insert_ss, S. }
  exact (G [] (SSorted_nil _)).
Qed.

(** The test by which a record is not the one with key [k]. *)
Definition notKey (k : nat) (r : StoredMessage) : bool :=
  match id r with Some k' => negb (Nat.eqb k' k) | None => true end.

Lemma getAll_delete (st : Store) (sid : string) (k : nat) :
  wfStore st ->
  getAllMessagesFromDB (deleteMessageFromDB st k) sid
  = filter (notKey k) (getAllMessagesFromDB st sid).
Proof.
  intros [Hk _]. unfold getAllMessagesFromDB, deleteMessageFromDB, storeDelete.
  cbn [records]. rewrite <- sort_filter. f_equal.
  induction (records st) as [|[k' r] l IH]; [reflexivity|].
  assert (Hr : id r = Some k') by exact (proj1 (Hk k' r (or_introl eq_refl))).
  assert (IH' : map snd (filter (fun kr => String.eqb (sessionId (snd kr)) sid)
                  (filter (fun kr => negb (Nat.eqb (fst kr) k)) l))
                = filter (notKey k) (map snd (filter (fun kr => String.eqb (sessionId (snd kr)) sid) l)))
    by (apply IH; intros k'' r'' Hin; apply Hk; right; exact Hin).
  cbn. destruct (Nat.eqb k' k) eqn:E; cbn.
  - destruct (String.eqb (sessionId r) sid); cbn; [|exact IH'].
    unfold notKey at 1. rewrite Hr, E. cbn. exact IH'.
  - destruct (String.eqb (sessionId r) sid); cbn; [|exact IH'].
    unfold notKey at 1. rewrite Hr, E. cbn. rewrite IH'. reflexivity.
Qed.

Lemma getAll_clear (st : Store) (sid : string) :
  wfStore st -> getAllMessagesFromDB (clearAllMessages st sid) sid = [].
Proof.
  intros W. destruct (getAllMessagesFromDB (clearAllMessages st sid) sid) as [|r l] eqn:E;
    [reflexivity|exfalso].
  assert (Hin : In r (getAllMessagesFromDB (clearAllMessages st sid) sid))
    by (rewrite E; left; reflexivity).
  apply getAll_In in Hin as (k & Hin & Hs).
  apply (clear_In st sid k r W) in Hin as [_ Hn]. contradiction.
Qed.

End StoreFacts.

Module ConversationFacts.
Import Db DbFacts StoreFacts Conversation.

Lemma to_uint_not_nil (n : nat) : Nat.to_uint n <> Decimal.Nil.
Proof.
  intros E. pose proof (DecimalNat.Unsigned.of_to n) as H. rewrite E in H.
  cbn in H. subst n. discriminate E.
Qed.

(** The decimal text of a number starts with a digit. *)
Lemma natToString_digit (n : nat) :
  exists c t, natToString n = String c t
              /\ (48 <= nat_of_ascii c <= 57)%nat.
Proof.
  unfold natToString. pose proof (to_uint_not_nil n) as H.
  destruct (Nat.to_uint n); [contradiction|..];
    (eexists; eexists; split; [reflexivity|cbn; lia]).
Qed.

Lemma uintToString_inj (d d' : Decimal.uint) : uintToString d = uintToString d' -> d = d'.
Proof.
  revert d'. induction d; destruct d'; cbn; intros E; try discriminate;
    try reflexivity; injection E as E; f_equal; apply IHd; exact E.
Qed.

Lemma dbMessageId_inj (a b : option nat) : dbMessageId a = dbMessageId b -> a = b.
Proof.
  unfold dbMessageId. cbn. intros E. injection E as E.
  destruct a as [a|], b as [b|].
  - f_equal. apply DecimalNat.Unsigned.to_uint_inj, uintToString_inj, E.
  - exfalso. destruct (natToString_digit a) as (c & t & Ea & Hc). rewrite Ea in E.
    injection E as Ec _. subst c. cbn in Hc. lia.
  - exfalso. destruct (natToString_digit b) as (c & t & Eb & Hc). rewrite Eb in E.
    injection E as Ec _. subst c. cbn in Hc. lia.
  - reflexivity.
Qed.

Lemma dbMessageId_not_initial (a : option nat) : dbMessageId a <> "initial"%string.
Proof. discriminate. Qed.

Lemma errorMessage_not_initial (now : nat) (t : string) : uid (errorMessage now t) <> "initial"%string.
Proof. discriminate. Qed.

Lemma temp_id_not_initial (now : nat) (rnd : string) :
  (natToString now ++ "-" ++ rnd)%string <> "initial"%string.
Proof.
  destruct (natToString_digit now) as (c & t & E & Hc). rewrite E. cbn.
  intros F. injection F as Fc _. subst c. cbn in Hc. lia.
Qed.

(** X18.  Deleting message [k] from the conversation never removes a message whose id is [db-k'] for another key [k']. *)
Theorem delete_keeps_other_messages (h : Hook) (k k' : nat) (m : UiMessage) :
  In m (messages h) -> uid m = dbMessageId (Some k') -> k' <> k ->
  In m (messages (deleteMessageOk k h)).
Proof.
  intros Hin Hid Hne. cbn [deleteMessageOk messages]. apply filter_In. split; [exact Hin|].
  rewrite Hid. apply negb_true_iff, String.eqb_neq. intros E.
  apply dbMessageId_inj in E. injection E as E. contradiction.
Qed.

(** The greeting heads the list and no other message has its id. *)
Definition greetingFirst (h : Hook) : Prop :=
  exists rest, messages h = initialMessage :: rest
               /\ Forall (fun m => uid m <> "initial"%string) rest.

Lemma greetingFirst_append (h : Hook) (m : UiMessage) (st : Store) :
  greetingFirst h -> uid m <> "initial"%string ->
  greetingFirst (mkHook st (messages h ++ [m])).
Proof.
  intros (rest & E & F) Hm. exists (rest ++ [m]). cbn [messages]. rewrite E. split; [reflexivity|].
  apply Forall_app. split; [exact F|]. constructor; [exact Hm|constructor].
Qed.

Lemma stepHook_greetingFirst (sid : string) (h : Hook) (op : HookOp) :
  greetingFirst h -> greetingFirst (stepHook sid h op).
Proof.
  intros G. destruct op as [|now|md now|now|md now rnd|k|now rnd| |now rnd]; cbn [stepHook].
  - destruct G as (rest & E & F). unfold loadHistoryOk.
    destruct (Nat.ltb 0 (List.length (getAllMessagesFromDB (store h) sid))); [|exists rest; split; assumption].
    rewrite E. exists (map fromStored (getAllMessagesFromDB (store h) sid)). split; [reflexivity|].
    apply Forall_forall. intros m Hm. apply in_map_iff in Hm as (r & <- & _).
    apply dbMessageId_not_initial.
  - apply greetingFirst_append; [exact G|apply errorMessage_not_initial].
  - unfold addMessageOk. destruct (addMessageToDB (store h) md sid (Z.of_nat now)).
    apply greetingFirst_append; [exact G|apply dbMessageId_not_initial].
  - apply greetingFirst_append; [exact G|apply errorMessage_not_initial].
  - apply greetingFirst_append; [exact G|apply temp_id_not_initial].
  - destruct G as (rest & E & F). unfold deleteMessageOk. cbn [messages]. rewrite E.
    cbn [filter]. change (uid initialMessage) with "initial"%string.
    replace (String.eqb "initial" (dbMessageId (Some k))) with false
      by (symmetry; apply String.eqb_neq; intros X; symmetry in X;
          exact (dbMessageId_not_initial _ X)).
    eexists. split; [reflexivity|]. apply Forall_forall. intros m Hm.
    apply filter_In in Hm as [Hm _]. rewrite Forall_forall in F. apply F, Hm.
  - apply greetingFirst_append; [exact G|apply temp_id_not_initial].
  - destruct G as (rest & E & F). unfold clearHistoryOk. cbn [messages]. rewrite E.
    cbn [filter]. change (uid initialMessage) with "initial"%string. rewrite String.eqb_refl.
    eexists. split; [reflexivity|]. apply Forall_forall. intros m Hm.
    apply filter_In in Hm as [Hm _]. rewrite Forall_forall in F. apply F, Hm.
  - apply greetingFirst_append; [exact G|apply temp_id_not_initial].
Qed.

Lemma runHook_greetingFirst (sid : string) (h : Hook) (ops : list HookOp) :
  greetingFirst h -> greetingFirst (runHook sid h ops).
Proof.
  unfold runHook. revert h. induction ops as [|op ops IH]; intros h G; cbn; [exact G|].
  apply IH, stepHook_greetingFirst, G.
Qed.

(** X19.  Whatever the hook does after mounting, the greeting stays first in the list, and a successful clear leaves exactly the greeting. *)
Theorem greeting_survives_everything (st : Store) (sid : string) (ops : list HookOp) :
  (exists rest, messages (runHook sid (mountHook st) ops) = initialMessage :: rest)
  /\ messages (clearHistoryOk sid (runHook sid (mountHook st) ops)) = [initialMessage].
Proof.
  assert (G0 : greetingFirst (mountHook st)) by (exists []; split; [reflexivity|constructor]).
  destruct (runHook_greetingFirst sid _ ops G0) as (rest & E & F).
  split; [exists rest; exact E|].
  unfold clearHistoryOk. cbn [messages]. rewrite E. cbn [filter].
  change (uid initialMessage) with "initial"%string. rewrite String.eqb_refl. f_equal.
  clear E. induction F as [|m rest Hm F IH]; [reflexivity|].
  cbn. apply String.eqb_neq in Hm. rewrite Hm. exact IH.
Qed.

Lemma filter_map_comm {A B} (f : B -> bool) (g : A -> B) (l : list A) :
  filter f (map g l) = map g (filter (fun x => f (g x)) l).
Proof. induction l as [|a l IH]; cbn; [reflexivity|]. destruct (f (g a)); cbn; rewrite IH; reflexivity. Qed.

(** The hook's list is the greeting followed by the session's stored
    messages, in the order [getAllMessagesFromDB] returns them. *)
Definition mirrors (sid : string) (h : Hook) : Prop :=
  messages h = initialMessage :: map fromStored (getAllMessagesFromDB (store h) sid).

Lemma loadHistoryOk_mirrors (sid : string) (h : Hook) :
  (exists rest, messages h = initialMessage :: rest)
  -> (List.length (getAllMessagesFromDB (store h) sid) = 0%nat -> mirrors sid h)
  -> mirrors sid (loadHistoryOk sid h).
Proof.
  intros [rest E] H0. unfold loadHistoryOk.
  destruct (Nat.ltb 0 (List.length (getAllMessagesFromDB (store h) sid))) eqn:L.
  - unfold mirrors. cbn [messages store]. rewrite E. reflexivity.
  - apply H0. apply Nat.ltb_ge in L. lia.
Qed.

(** X20.  When every store call succeeds and the clock does not go back, the hook's list is the greeting followed by the session's stored messages in [getAllMessagesFromDB] order: loading establishes this, and loading, adding, deleting and clearing preserve it. *)
Theorem hook_mirrors_store (sid : string) :
  (forall st, mirrors sid (loadHistoryOk sid (mountHook st)))
  /\ forall h, wfStore (store h) -> mirrors sid h ->
     mirrors sid (loadHistoryOk sid h)
     /\ (forall md now,
           (forall k r, In (k, r) (records (store h)) -> sessionId r = sid ->
                        (timestamp r <= Z.of_nat now)%Z) ->
           mirrors sid (fst (addMessageOk sid md now h)))
     /\ (forall k, mirrors sid (deleteMessageOk k h))
     /\ mirrors sid (clearHistoryOk sid h).
Proof.
  split.
  - intros st. apply loadHistoryOk_mirrors; [exists []; reflexivity|].
    intros L. unfold mirrors. cbn [messages store mountHook] in *.
    destruct (getAllMessagesFromDB st sid) eqn:E; [reflexivity|discriminate L].
  - intros h W M. split; [|split; [|split]].
    + apply loadHistoryOk_mirrors; [eexists; exact M|]. intros _. exact M.
    + intros md now Hts. unfold addMessageOk, mirrors.
      cbn [addMessageToDB fst messages store].
      pose proof (getAll_add (store h) md sid (Z.of_nat now) Hts) as A.
      cbn [addMessageToDB snd] in A. rewrite A, M, map_app. reflexivity.
    + intros k. unfold deleteMessageOk, mirrors. cbn [messages store].
      rewrite (getAll_delete _ _ _ W), M. cbn [filter].
      change (uid initialMessage) with "initial"%string.
      replace (String.eqb "initial" (dbMessageId (Some k))) with false
        by (symmetry; apply String.eqb_neq; intros X; symmetry in X;
            exact (dbMessageId_not_initial _ X)).
      cbn [negb]. f_equal. rewrite filter_map_comm. f_equal. apply filter_ext. intros r. unfold notKey. cbn [uid fromStored].
      destruct (String.eqb (dbMessageId (id r)) (dbMessageId (Some k))) eqn:E.
      * apply String.eqb_eq, dbMessageId_inj in E. rewrite E, Nat.eqb_refl. reflexivity.
      * apply String.eqb_neq in E. destruct (id r) as [k'|]; [|reflexivity].
        destruct (Nat.eqb k' k) eqn:K; [|reflexivity].
        apply Nat.eqb_eq in K. subst k'. contradiction.
    + unfold clearHistoryOk, mirrors. cbn [messages store].
      rewrite (getAll_clear _ _ W), M. cbn [filter].
      change (uid initialMessage) with "initial"%string. rewrite String.eqb_refl. f_equal.
      induction (getAllMessagesFromDB (store h) sid) as [|r l IH]; [reflexivity|].
      cbn [map filter]. replace (String.eqb (uid (fromStored r)) "initial") with false
        by (symmetry; apply String.eqb_neq, dbMessageId_not_initial).
      exact IH.
Qed.

Definition dbOneHook : Hook :=
  mkHook emptyStore [initialMessage; mkUi (dbMessageId (Some 1%nat)) USER (Some "a"%string) None None;
                     mkUi (dbMessageId (Some 2%nat)) MODEL (Some "b"%string) None None].

Lemma delete_keeps_other_messages_witness :
  let m := mkUi (dbMessageId (Some 1%nat)) USER (Some "a"%string) None None in
  (In m (messages dbOneHook) /\ uid m = dbMessageId (Some 1%nat) /\ 1%nat <> 2%nat)
  /\ In m (messages (deleteMessageOk 2 dbOneHook)).
Proof.
  intros m.
  assert (H1 : In m (messages dbOneHook)) by (right; left; reflexivity).
  assert (H2 : uid m = dbMessageId (Some 1%nat)) by reflexivity.
  assert (H3 : 1%nat <> 2%nat) by discriminate.
  split; [split; [exact H1|split; assumption]|].
  exact (delete_keeps_other_messages dbOneHook 2 1 m H1 H2 H3).
Defined.

Lemma hook_mirrors_store_witness :
  let h0 := loadHistoryOk "A" (mountHook oneRecordStore) in
  (wfStore (store h0) /\ mirrors "A" h0)
  /\ mirrors "A" (fst (addMessageOk "A" helloData 9 h0))
  /\ mirrors "A" (deleteMessageOk 1 h0)
  /\ mirrors "A" (clearHistoryOk "A" h0).
Proof.
  intros h0. destruct (hook_mirrors_store "A") as [A B].
  assert (W : wfStore (store h0))
    by exact (wf_step emptyStore (OpAdd helloData "A" 5) wf_empty).
  assert (M : mirrors "A" h0) by exact (A oneRecordStore).
  destruct (B h0 W M) as (_ & Add & Del & Clr).
  split; [split; assumption|]. split; [|split; [apply Del|exact Clr]].
  apply Add. intros k r [E|[]] _. injection E as _ <-. cbn. lia.
Defined.

End ConversationFacts.

Module SessionIdFacts.
Import Conversation.
Local Open Scope string_scope.

(** X21.  Once [getSessionId] has returned an id (with a non-empty generated UUID), a later call returns the same id and leaves the stored item unchanged; a stored empty string counts as missing. *)
Theorem session_id_persists (stored : option string) (uuid uuid' : string) :
  uuid <> "" ->
  fst (getSessionId (snd (getSessionId stored uuid)) uuid') = fst (getSessionId stored uuid)
  /\ snd (getSessionId (snd (getSessionId stored uuid)) uuid') = snd (getSessionId stored uuid).
Proof.
  intros Hu. destruct stored as [s|]; cbn.
  - destruct (String.eqb s "") eqn:E; cbn.
    + apply String.eqb_neq in Hu. rewrite Hu. split; reflexivity.
    + rewrite E. split; reflexivity.
  - apply String.eqb_neq in Hu. rewrite Hu. split; reflexivity.
Qed.

Lemma session_id_persists_witness :
  "9b1d" <> ""
  /\ fst (getSessionId (snd (getSessionId (Some "") "9b1d")) "77aa") = "9b1d".
Proof.
  assert (H : "9b1d" <> "") by discriminate.
  split; [exact H|].
  destruct (session_id_persists (Some "") "9b1d" "77aa" H) as [A _]. rewrite A. reflexivity.
Defined.

End SessionIdFacts.
